(** * soap-node-mysql: the where parser, the query factory and the collection

    A shallow embedding of [mysql.where.parser.ts], of the query factory
    ([MySqlQueryFactory]) and of [mysql.collection.ts], with the properties
    of the specification stated over it.

    JavaScript values are an inductive type, objects are association lists in
    their own enumeration order, exceptions are the [Throw] branch of
    [Result], and the connection pool is an oracle consulted with the history
    of the calls made so far, every call being appended to that history. *)

From Stdlib Require Import ZArith List String Ascii Bool Lia.
From Stdlib Require Import Numbers.DecimalString.
Import ListNotations.
Open Scope string_scope.
Set Warnings "-register-all".

(** ** JavaScript values *)

(** A JavaScript number; the finite ones are restricted to the integers,
    which is what limits, offsets, identifiers and row counts are.  [Finite z]
    is read as a number when [z] is a double; every integer up to 2^53 in
    magnitude is one. *)
Inductive JsNumber : Type :=
| Finite (z : Z)
| NaN
| Infinity
| NegInfinity.

Inductive JsValue : Type :=
| JUndefined
| JNull
| JBool (b : bool)
| JNum (n : JsNumber)
| JStr (s : string)
| JArr (items : list JsValue).

Definition JInt (z : Z) : JsValue := JNum (Finite z).

(** A plain object: its own enumerable properties, in enumeration order. *)
Definition Rec : Type := list (string * JsValue).

Definition Object_keys (o : Rec) : list string := map fst o.
Definition Object_values (o : Rec) : list JsValue := map snd o.

(** [Number.isFinite(x)] on an optional number ([undefined] is [None]). *)
Definition Number_isFinite (x : option JsNumber) : bool :=
  match x with
  | Some (Finite _) => true
  | _ => false
  end.

(** Truthiness of an optional number: [undefined], [0] and [NaN] are falsy. *)
Definition truthy_number (x : option JsNumber) : bool :=
  match x with
  | None => false
  | Some (Finite z) => negb (Z.eqb z 0)
  | Some NaN => false
  | Some _ => true
  end.

(** [`${n}`] for a number.  For an integer up to 2^53 in magnitude the
    template literal prints every digit, as here; beyond, it prints the
    shortest digits that read back as the same double (and an exponent from
    10^21 on), which this function does not follow. *)
Definition show_number (n : JsNumber) : string :=
  match n with
  | Finite z => NilZero.string_of_int (Z.to_int z)
  | NaN => "NaN"
  | Infinity => "Infinity"
  | NegInfinity => "-Infinity"
  end.

(** The double nearest to an integer, ties going to the even significand:
    the rounding every arithmetic operation on numbers ends with.  An integer
    up to 2^53 in magnitude is a double; a larger one keeps its 53 leading
    bits.  The range of [Infinity] starts at 2^1024, which no sum formed
    below reaches: a count of the protocol is below 2^64 and an array holds
    fewer than 2^32 elements. *)
Definition to_double (z : Z) : Z :=
  let a := Z.abs z in
  if (a <=? 2 ^ 53)%Z then z
  else
    let s := (Z.log2 a - 52)%Z in
    let q := (a / 2 ^ s)%Z in
    let r := (a mod 2 ^ s)%Z in
    let half := (2 ^ (s - 1))%Z in
    let q' :=
      if (r <? half)%Z then q
      else if (half <? r)%Z then (q + 1)%Z
      else if Z.even q then q
      else (q + 1)%Z in
    (Z.sgn z * (q' * 2 ^ s))%Z.

(** [a + b] on two numbers that hold integers. *)
Definition js_add (a b : Z) : Z := to_double (a + b).

(** ** Exceptions *)

Inductive JsError : Type :=
| UnsupportedOperator (operator : string)
    (* new Error(`Unsupported operator ${operator}`) *)
| InvalidConditionFormat
    (* new Error("Invalid condition format") *)
| TypeError (what : string)
    (* raised by the runtime: a property read on undefined, Object.keys(undefined) *)
| DriverFailure (code : string)
    (* a rejection coming from the pool *)
| CollectionError (cause : JsError).
    (* CollectionError.createError(error) *)

Inductive Result (A : Type) : Type :=
| Ok (a : A)
| Throw (e : JsError).
Arguments Ok {A} a.
Arguments Throw {A} e.

Definition rbind {A B : Type} (r : Result A) (k : A -> Result B) : Result B :=
  match r with
  | Ok a => k a
  | Throw e => Throw e
  end.

Notation "'try!' x <- r ; k" := (rbind r (fun x => k))
  (at level 10, x name, r at level 100, k at level 200).

(** ** Strings *)

(** [String.prototype.toUpperCase] on ASCII text. *)
Definition upper_ascii (c : ascii) : ascii :=
  let n := nat_of_ascii c in
  if andb (Nat.leb 97 n) (Nat.leb n 122) then ascii_of_nat (n - 32) else c.

Fixpoint toUpperCase (s : string) : string :=
  match s with
  | EmptyString => EmptyString
  | String c rest => String (upper_ascii c) (toUpperCase rest)
  end.

(** [Array.prototype.join] on an array of strings. *)
Definition join (sep : string) (parts : list string) : string :=
  String.concat sep parts.

(** The number of placeholder tokens [?] of a text. *)
Fixpoint count_placeholders (s : string) : nat :=
  match s with
  | EmptyString => 0
  | String c rest =>
      (if Ascii.eqb c "?"%char then 1 else 0) + count_placeholders rest
  end.

(** ** The condition tree (declared by @soapjs/soap) *)

(** Modelled from the spec: the type [LogicalOperator] of @soapjs/soap is not
    part of this repository; the joiner of a condition group is one of the two
    boolean joiners, carried as the lower-case text the parser upper-cases. *)
Inductive LogicalOperator : Type := and_ | or_.

Definition logical_text (o : LogicalOperator) : string :=
  match o with
  | and_ => "and"
  | or_ => "or"
  end.

(** A [WhereCondition] as the parser sees it at run time: an object with a
    [left] key, an object with a [conditions] key, or any other object.  The
    operator of a leaf is the raw text of the property. *)
Inductive WhereCondition : Type :=
| Condition (left : string) (operator : string) (right : JsValue)
| NestedCondition (conditions : list WhereCondition) (operator : LogicalOperator)
| OtherObject.

(** The [Where] builder: the parser and the factory read its [result]. *)
Record Where : Type := { result : option WhereCondition }.

(** ** mysql.where.parser.ts *)

Module MySqlWhereParser.

Record Fragment : Type := { query : string; values : list JsValue }.

Definition convertOperatorToSql (operator : string) : Result string :=
  if String.eqb operator "eq" then Ok "="
  else if String.eqb operator "ne" then Ok "!="
  else if String.eqb operator "gt" then Ok ">"
  else if String.eqb operator "lt" then Ok "<"
  else if String.eqb operator "gte" then Ok ">="
  else if String.eqb operator "lte" then Ok "<="
  else if String.eqb operator "in" then Ok "IN"
  else if String.eqb operator "nin" then Ok "NOT IN"
  else if String.eqb operator "like" then Ok "LIKE"
  else Throw (UnsupportedOperator operator).

Definition parseSimpleCondition (left operator : string) (right : JsValue)
  : Result Fragment :=
  try! sqlOperator <- convertOperatorToSql operator;
  Ok {| query := left ++ " " ++ sqlOperator ++ " ?"; values := [right] |}.

(** The body of the [for ... of] loop of [parseNestedCondition], over the
    two arrays it pushes to; [parse_child] is the recursive call. *)
Fixpoint nested_loop (parse_child : WhereCondition -> Result Fragment)
    (conditions : list WhereCondition)
    (sqlParts : list string) (vals : list JsValue)
  : Result (list string * list JsValue) :=
  match conditions with
  | [] => Ok (sqlParts, vals)
  | condition :: rest =>
      try! parsed <- parse_child condition;
      nested_loop parse_child rest
        (sqlParts ++ [("(" ++ query parsed ++ ")")%string])%list
        (vals ++ values parsed)%list
  end.

Definition nested_result (operator : LogicalOperator)
    (acc : list string * list JsValue) : Fragment :=
  {| query := join (" " ++ toUpperCase (logical_text operator) ++ " ") (fst acc);
     values := snd acc |}.

(** [parse] on a non-null condition object. *)
Fixpoint parseNode (data : WhereCondition) : Result Fragment :=
  match data with
  | Condition left_ operator right_ =>
      parseSimpleCondition left_ operator right_
  | NestedCondition conditions operator =>
      try! acc <-
        (fix loop (cs : list WhereCondition)
             (sqlParts : list string) (vals : list JsValue)
           : Result (list string * list JsValue) :=
           match cs with
           | [] => Ok (sqlParts, vals)
           | condition :: rest =>
               try! parsed <- parseNode condition;
               loop rest (sqlParts ++ [("(" ++ query parsed ++ ")")%string])%list
                    (vals ++ values parsed)%list
           end) conditions [] [];
      Ok (nested_result operator acc)
  | OtherObject => Throw InvalidConditionFormat
  end.

Definition parseNestedCondition (conditions : list WhereCondition)
    (operator : LogicalOperator) : Result Fragment :=
  try! acc <- nested_loop parseNode conditions [] [];
  Ok (nested_result operator acc).

(** [parse(data)] for [data] a condition or [null]. *)
Definition parse (data : option WhereCondition) : Result Fragment :=
  match data with
  | None => Ok {| query := "1=1"; values := [] |}
  | Some node => parseNode node
  end.

(** [parse(data)] for [data instanceof Where]. *)
Definition parse_Where (data : Where) : Result Fragment :=
  parse (result data).

End MySqlWhereParser.

(** ** The shape of a condition tree *)

(** Induction over condition trees, with the hypothesis available for every
    child of a group. *)
Fixpoint WhereCondition_tree_ind (P : WhereCondition -> Prop)
    (Hleaf : forall left_ operator right_, P (Condition left_ operator right_))
    (Hgroup : forall conditions operator,
        Forall P conditions -> P (NestedCondition conditions operator))
    (Hother : P OtherObject)
    (c : WhereCondition) {struct c} : P c :=
  match c with
  | Condition left_ operator right_ => Hleaf left_ operator right_
  | NestedCondition conditions operator =>
      Hgroup conditions operator
        ((fix all (cs : list WhereCondition) : Forall P cs :=
            match cs with
            | [] => Forall_nil P
            | c' :: rest =>
                Forall_cons c'
                  (WhereCondition_tree_ind P Hleaf Hgroup Hother c') (all rest)
            end) conditions)
  | OtherObject => Hother
  end.

(** The total number of leaves of a tree. *)
Fixpoint leaves (c : WhereCondition) : nat :=
  match c with
  | Condition _ _ _ => 1
  | NestedCondition conditions _ =>
      (fix sum (cs : list WhereCondition) : nat :=
         match cs with
         | [] => 0
         | c' :: rest => leaves c' + sum rest
         end) conditions
  | OtherObject => 0
  end.

(** The values of the leaves, in pre-order, left to right. *)
Fixpoint leaf_values (c : WhereCondition) : list JsValue :=
  match c with
  | Condition _ _ right_ => [right_]
  | NestedCondition conditions _ =>
      (fix cat (cs : list WhereCondition) : list JsValue :=
         match cs with
         | [] => []
         | c' :: rest => (leaf_values c' ++ cat rest)%list
         end) conditions
  | OtherObject => []
  end.

Definition supported_operators : list string :=
  ["eq"; "ne"; "gt"; "lt"; "gte"; "lte"; "in"; "nin"; "like"].

Definition supported (operator : string) : bool :=
  existsb (String.eqb operator) supported_operators.

(** The invariants of the data model on a tree: every node is a leaf or a
    group, the operator of every leaf is one of the enumeration, and the
    field of every leaf is free of the placeholder character. *)
Fixpoint well_formed (c : WhereCondition) : bool :=
  match c with
  | Condition left_ operator _ =>
      supported operator && Nat.eqb (count_placeholders left_) 0
  | NestedCondition conditions _ =>
      (fix all (cs : list WhereCondition) : bool :=
         match cs with
         | [] => true
         | c' :: rest => well_formed c' && all rest
         end) conditions
  | OtherObject => false
  end.

(** Whether some leaf of the tree carries an operator outside the
    enumeration. *)
Fixpoint has_unsupported (c : WhereCondition) : bool :=
  match c with
  | Condition _ operator _ => negb (supported operator)
  | NestedCondition conditions _ =>
      (fix any (cs : list WhereCondition) : bool :=
         match cs with
         | [] => false
         | c' :: rest => has_unsupported c' || any rest
         end) conditions
  | OtherObject => false
  end.

(** The text obtained by binding [args], in order, to the placeholders of
    [text], from left to right. *)
Fixpoint fill (text : string) (args : list string) : string :=
  match text with
  | EmptyString => EmptyString
  | String c rest =>
      if Ascii.eqb c "?"%char
      then match args with
           | arg :: others => arg ++ fill rest others
           | [] => String c (fill rest [])
           end
      else String c (fill rest args)
  end.

(** The SQL token of an operator of the enumeration. *)
Definition sql_token (operator : string) : string :=
  match MySqlWhereParser.convertOperatorToSql operator with
  | Ok token => token
  | Throw _ => EmptyString
  end.

(** The predicate a tree stands for, written with the value of each leaf in
    the place of that leaf: leaves as [<field> <token> <value>], the children
    of a group in parentheses, joined by the upper-cased joiner. *)
Fixpoint inline (show : JsValue -> string) (c : WhereCondition) : string :=
  match c with
  | Condition left_ operator right_ =>
      left_ ++ " " ++ sql_token operator ++ " " ++ show right_
  | NestedCondition conditions operator =>
      join (" " ++ toUpperCase (logical_text operator) ++ " ")
        ((fix each (cs : list WhereCondition) : list string :=
            match cs with
            | [] => []
            | c' :: rest => ("(" ++ inline show c' ++ ")") :: each rest
            end) conditions)
  | OtherObject => EmptyString
  end.

(** A fragment is the compilation of a tree: it is what [parse] returns, it
    has one placeholder and one value per leaf, the values are those of the
    leaves in pre-order, and binding them to the placeholders from left to
    right puts every value in the place of its own leaf. *)
Definition compiles_to (show : JsValue -> string)
    (c : WhereCondition) (fragment : MySqlWhereParser.Fragment) : Prop :=
  MySqlWhereParser.parse (Some c) = Ok fragment
  /\ count_placeholders (MySqlWhereParser.query fragment) = leaves c
  /\ MySqlWhereParser.values fragment = leaf_values c
  /\ fill (MySqlWhereParser.query fragment)
       (map show (MySqlWhereParser.values fragment))
     = inline show c.

Definition in_parentheses (text : string) : string := "(" ++ text ++ ")".

(** ** mysql.types.ts *)

Module MySqlFindQueryParams.
Record t : Type :=
  { where_ : option string; limit : option string; sort : option string }.
End MySqlFindQueryParams.

Module MySqlUpdateRow.
Record t : Type :=
  { keys : list string; values : list JsValue; where_ : string }.
End MySqlUpdateRow.

Module MySqlUpdateQueryParams.
Record t : Type := { updates : list MySqlUpdateRow.t }.
End MySqlUpdateQueryParams.

Module MySqlCountQueryParams.
Record t : Type := { where_ : option string }.
End MySqlCountQueryParams.

Module MySqlDeleteQueryParams.
Record t : Type := { where_ : string }.
End MySqlDeleteQueryParams.

Module MySqlInsertQueryParams.
Record t : Type := { documents : list Rec }.
End MySqlInsertQueryParams.

Module MySqlAggregateParams.
Record t : Type :=
  { pipeline : string;
    where_ : option string;
    groupBy : option string;
    sort : option string }.
End MySqlAggregateParams.

(** ** The parameter objects (declared by @soapjs/soap) *)

(** Modelled from the spec: [FindParams], [CountParams] and [RemoveParams]
    are classes of @soapjs/soap; each has an optional condition, and
    [FindParams] an optional sort mapping, limit and offset. *)
Module FindParams.
Record t : Type :=
  { limit : option JsNumber;
    offset : option JsNumber;
    sort : option Rec;
    where_ : option Where }.
End FindParams.

Module CountParams.
Record t : Type := { where_ : option Where }.
End CountParams.

Module RemoveParams.
Record t : Type := { where_ : option Where }.
End RemoveParams.

(** Modelled from the spec: [AggregationParams] is a class of @soapjs/soap;
    its selectors are field names, [groupBy] is a sequence of field names, and
    [where_] and [sort] stand for the text the template literal of the
    factory renders these two fields to. *)
Module AggregationParams.
Record t : Type :=
  { sum : option string;
    average : option string;
    min : option string;
    max : option string;
    count : option string;
    where_ : option string;
    sort : option string;
    groupBy : option (list string) }.
End AggregationParams.

(** ** The query factory *)

Module MySqlQueryFactory.

Import MySqlWhereParser.

(** [`${x}`] for an optional number. *)
Definition show_optional (x : option JsNumber) : string :=
  match x with
  | Some n => show_number n
  | None => "undefined"
  end.

(** [sort[key] === -1 ? "DESC" : "ASC"] *)
Definition direction (v : JsValue) : string :=
  match v with
  | JNum (Finite z) => if Z.eqb z (-1) then "DESC" else "ASC"
  | _ => "ASC"
  end.

Definition createFindQuery (params : FindParams.t)
  : Result MySqlFindQueryParams.t :=
  let limit := FindParams.limit params in
  let offset := FindParams.offset params in
  try! where_text <-
    match FindParams.where_ params with
    | Some w =>
        try! parsed <- parse (result w);
        Ok (Some ("WHERE " ++ query parsed))
    | None => Ok None
    end;
  let sort_text :=
    match FindParams.sort params with
    | Some sort =>
        let sorts :=
          join ", " (map (fun kv => fst kv ++ " " ++ direction (snd kv)) sort) in
        Some ("ORDER BY " ++ sorts)
    | None => None
    end in
  let limit_text :=
    if Number_isFinite limit && Number_isFinite offset
    then Some ("LIMIT " ++ show_optional offset ++ ", " ++ show_optional limit)
    else if truthy_number limit
    then Some ("LIMIT " ++ show_optional limit)
    else None in
  Ok {| MySqlFindQueryParams.where_ := where_text;
        MySqlFindQueryParams.limit := limit_text;
        MySqlFindQueryParams.sort := sort_text |}.

Definition createCountQuery (params : CountParams.t)
  : Result MySqlCountQueryParams.t :=
  try! text <-
    match CountParams.where_ params with
    | Some w => try! parsed <- parse (result w); Ok (query parsed)
    | None => Ok EmptyString
    end;
  Ok {| MySqlCountQueryParams.where_ := Some ("WHERE " ++ text) |}.

(** [where.at(-1)] *)
Definition at_last {A : Type} (l : list A) : option A :=
  match rev l with
  | [] => None
  | x :: _ => Some x
  end.

(** The caller's [where] array once the padding loop has run; an entry is
    [None] where the loop pushed [undefined]. *)
Definition padded (updates : list Rec) (where_ : list Where)
  : list (option Where) :=
  let diff := (Z.of_nat (List.length updates) - Z.of_nat (List.length where_))%Z in
  if (0 <? diff)%Z
  then (map Some where_ ++ repeat (at_last where_) (Z.to_nat diff))%list
  else map Some where_.

(** The [forEach] over the payloads, with its index and the [rows] array. *)
Fixpoint forEach_update (updates : list Rec) (i : nat)
    (where_ : list (option Where)) (rows : list MySqlUpdateRow.t)
  : Result (list MySqlUpdateRow.t) :=
  match updates with
  | [] => Ok rows
  | update :: rest =>
      try! w <-
        match nth_error where_ i with
        | Some (Some w) => Ok w
        | _ => Throw (TypeError "Cannot read properties of undefined (reading 'result')")
        end;
      try! parsed <- parse (result w);
      let row :=
        {| MySqlUpdateRow.keys :=
             map (fun key => key ++ " = ?") (Object_keys update);
           MySqlUpdateRow.values := Object_values update;
           MySqlUpdateRow.where_ := query parsed |} in
      forEach_update rest (S i) where_ (rows ++ [row])%list
  end.

(** [createUpdateQuery(updates, where)]: what it returns or throws, and the
    contents of the caller's [where] array after the call. *)
Definition createUpdateQuery (updates : list Rec) (where_ : list Where)
  : Result MySqlUpdateQueryParams.t * list (option Where) :=
  let where_after := padded updates where_ in
  (try! rows <- forEach_update updates 0 where_after [];
   Ok {| MySqlUpdateQueryParams.updates := rows |},
   where_after).

(** The row one payload compiles to, given the text of its condition. *)
Definition update_row (update : Rec) (where_text : string) : MySqlUpdateRow.t :=
  {| MySqlUpdateRow.keys := map (fun key => key ++ " = ?") (Object_keys update);
     MySqlUpdateRow.values := Object_values update;
     MySqlUpdateRow.where_ := where_text |}.

(** The text an entry of the [where] array compiles to. *)
Definition compiled_text (entry : option Where) : Result string :=
  match entry with
  | Some w => try! parsed <- parse (result w); Ok (query parsed)
  | None => Throw (TypeError "Cannot read properties of undefined (reading 'result')")
  end.

(** The rows of the payloads paired, in order, with the entries of the
    [where] array: the first failure is the one reported. *)
Fixpoint rows_from (updates : list Rec) (where_ : list (option Where))
  : Result (list MySqlUpdateRow.t) :=
  match updates with
  | [] => Ok []
  | update :: rest =>
      try! text <- compiled_text (hd None where_);
      try! others <- rows_from rest (tl where_);
      Ok (update_row update text :: others)
  end.

Definition createRemoveQuery (params : RemoveParams.t)
  : Result MySqlDeleteQueryParams.t :=
  match RemoveParams.where_ params with
  | None => Throw (TypeError "Cannot read properties of undefined (reading 'result')")
  | Some w =>
      match result w with
      | Some condition =>
          try! parsed <- parse (Some condition);
          Ok {| MySqlDeleteQueryParams.where_ := "WHERE " ++ query parsed |}
      | None => Ok {| MySqlDeleteQueryParams.where_ := EmptyString |}
      end
  end.

(** [if (selector) select.push(...)]: an absent or empty name is falsy. *)
Definition selected (selector : option string) (column : string -> string)
  : list string :=
  match selector with
  | Some name => if String.eqb name EmptyString then [] else [column name]
  | None => []
  end.

(** [field ? `${keyword} ${field}` : empty], for a field that is an object
    when it is present. *)
Definition clause (keyword : string) (text : option string) : string :=
  match text with
  | Some t => keyword ++ " " ++ t
  | None => EmptyString
  end.

Definition createAggregationQuery (params : AggregationParams.t)
  : MySqlAggregateParams.t :=
  let select :=
    List.concat
      [selected (AggregationParams.sum params)
         (fun sum => "SUM(" ++ sum ++ ") AS totalSum");
       selected (AggregationParams.average params)
         (fun average => "AVG(" ++ average ++ ") AS average");
       selected (AggregationParams.min params)
         (fun min => "MIN(" ++ min ++ ") AS min");
       selected (AggregationParams.max params)
         (fun max => "MAX(" ++ max ++ ") AS max");
       selected (AggregationParams.count params)
         (fun _ => "COUNT(*) AS count")] in
  {| MySqlAggregateParams.pipeline :=
       match select with
       | [] => "*"
       | _ => join ", " select
       end;
     MySqlAggregateParams.where_ :=
       Some (clause "WHERE" (AggregationParams.where_ params));
     MySqlAggregateParams.sort :=
       Some (clause "ORDER BY" (AggregationParams.sort params));
     MySqlAggregateParams.groupBy :=
       Some match AggregationParams.groupBy params with
            | Some (first :: others) =>
                "GROUP BY " ++ join ", " (first :: others)
            | _ => EmptyString
            end |}.

End MySqlQueryFactory.

(** ** The connection pool (mysql2) *)

(** A call made on the pool. *)
Inductive Call : Type :=
| CallQuery (sql : string) (vals : option (list JsValue))
| CallBeginTransaction
| CallCommit
| CallRollback.

(** What the collection reads of the first element a query resolves to: the
    rows of a SELECT, and the header fields of a mutation. *)
Record QueryResult : Type :=
  { rows : list Rec; insertId : Z; affectedRows : Z }.

(** The pool answers each call from the history of the calls made before it;
    a rejected promise is a [Throw]. *)
Module Pool.
Record t : Type :=
  { query : list Call -> string -> option (list JsValue) -> Result QueryResult;
    beginTransaction : list Call -> Result unit;
    commit : list Call -> Result unit;
    rollback : list Call -> Result unit }.
End Pool.

(** A computation of the collection: from the history of calls to a result
    (or an exception) and the extended history. *)
Definition IO (A : Type) : Type := list Call -> Result A * list Call.

Definition io_ret {A : Type} (a : A) : IO A := fun h => (Ok a, h).

Definition io_throw {A : Type} (e : JsError) : IO A := fun h => (Throw e, h).

Definition io_bind {A B : Type} (m : IO A) (k : A -> IO B) : IO B :=
  fun h =>
    match m h with
    | (Ok a, h') => k a h'
    | (Throw e, h') => (Throw e, h')
    end.

Notation "'await!' x <- m ; k" := (io_bind m (fun x => k))
  (at level 10, x name, m at level 100, k at level 200).

(** [try { body } catch (error) { handler }] *)
Definition try_catch {A : Type} (body : IO A) (handler : JsError -> IO A)
  : IO A :=
  fun h =>
    match body h with
    | (Ok a, h') => (Ok a, h')
    | (Throw e, h') => handler e h'
    end.

(** [Promise.all]: the values when every promise is fulfilled, else a
    rejection (that of the first rejected promise of the array). *)
Fixpoint Promise_all {A : Type} (settled : list (Result A)) : Result (list A) :=
  match settled with
  | [] => Ok []
  | Ok a :: rest => try! others <- Promise_all rest; Ok (a :: others)
  | Throw e :: _ => Throw e
  end.

Inductive Query (A : Type) : Type :=
| Raw (sql : string)
| Structured (q : A).
Arguments Raw {A} sql.
Arguments Structured {A} q.

Inductive OperationStatus : Type := Success | Failure.

Record UpdateStats : Type :=
  { status : OperationStatus; modifiedCount : option Z }.

Module RemoveStats.
Record t : Type := { status : string; deletedCount : Z }.
End RemoveStats.

(** ** mysql.collection.ts *)

Module MySqlCollection.

Section Collection.

Variable pool : Pool.t.
Variable collectionName : string.

Definition pool_query (sql : string) (vals : option (list JsValue))
  : IO QueryResult :=
  fun h => (Pool.query pool h sql vals, (h ++ [CallQuery sql vals])%list).

Definition pool_beginTransaction : IO unit :=
  fun h => (Pool.beginTransaction pool h, (h ++ [CallBeginTransaction])%list).

Definition pool_commit : IO unit :=
  fun h => (Pool.commit pool h, (h ++ [CallCommit])%list).

Definition pool_rollback : IO unit :=
  fun h => (Pool.rollback pool h, (h ++ [CallRollback])%list).

(** [throw CollectionError.createError(error)] *)
Definition rethrow {A : Type} (error : JsError) : IO A :=
  io_throw (CollectionError error).

(** [if (fragment) parts.push(fragment)]: an absent or empty text is falsy. *)
Definition pushed (fragment : option string) : list string :=
  match fragment with
  | Some text => if String.eqb text EmptyString then [] else [text]
  | None => []
  end.

Definition find (query : option (Query MySqlFindQueryParams.t))
  : IO (list Rec) :=
  try_catch
    (let sql :=
       match query with
       | Some (Raw text) => text
       | Some (Structured q) =>
           join " "
             (("SELECT * FROM " ++ collectionName)
                :: (pushed (MySqlFindQueryParams.where_ q)
                      ++ pushed (MySqlFindQueryParams.sort q)
                      ++ pushed (MySqlFindQueryParams.limit q))%list)
       | None => join " " ["SELECT * FROM " ++ collectionName]
       end in
     await! res <- pool_query sql None;
     io_ret (rows res))
    rethrow.

(** [query[i]] on a [MySqlInsertQueryParams]: [documents] is the only
    property of the type, so an index read yields [undefined]. *)
Definition index_read (query : MySqlInsertQueryParams.t) (i : nat)
  : option Rec := None.

(** [Object.keys(x)] where [x] may be [undefined]. *)
Definition Object_keys_of (x : option Rec) : IO (list string) :=
  match x with
  | Some o => io_ret (Object_keys o)
  | None => io_throw (TypeError "Cannot convert undefined or null to object")
  end.

(** [{ ...record, id: v }] *)
Fixpoint with_id (record : Rec) (v : JsValue) : Rec :=
  match record with
  | [] => [("id", v)]
  | (key, old) :: rest =>
      if String.eqb key "id" then (key, v) :: rest
      else (key, old) :: with_id rest v
  end.

(** [documents.map((record, index) => ...)] from a given index on. *)
Fixpoint map_indexed {A B : Type} (f : A -> Z -> B) (l : list A) (index : Z)
  : list B :=
  match l with
  | [] => []
  | x :: rest => f x index :: map_indexed f rest (index + 1)
  end.

Definition insert (query : Query MySqlInsertQueryParams.t) : IO (list Rec) :=
  try_catch
    (match query with
     | Raw text =>
         await! _ <- pool_query text None;
         io_ret []
     | Structured q =>
         let documents := MySqlInsertQueryParams.documents q in
         await! first_keys <- Object_keys_of (index_read q 0);
         let columns := join ", " first_keys in
         let placeholders :=
           join ", "
             (map (fun _ => "(" ++ join ", " (map (fun _ => "?") first_keys) ++ ")")
                documents) in
         let vals := flat_map Object_values documents in
         let sql :=
           "INSERT INTO " ++ collectionName ++ " (" ++ columns ++ ") VALUES "
             ++ placeholders in
         await! res <- pool_query sql (Some vals);
         io_ret
           (map_indexed
              (fun record index =>
                 with_id record (JInt (js_add (insertId res) index)))
              documents 0)
     end)
    rethrow.

Definition remove (query : option (Query MySqlDeleteQueryParams.t))
  : IO RemoveStats.t :=
  try_catch
    (let sql :=
       match query with
       | Some (Raw text) => text
       | Some (Structured q) =>
           join " "
             (("DELETE FROM " ++ collectionName)
                :: pushed (Some (MySqlDeleteQueryParams.where_ q)))
       | None => join " " ["DELETE FROM " ++ collectionName]
       end in
     await! res <- pool_query sql None;
     io_ret {| RemoveStats.status := "ok";
               RemoveStats.deletedCount := affectedRows res |})
    rethrow.

(** The statement of one row of an update. *)
Definition update_sql (row : MySqlUpdateRow.t) : string :=
  "UPDATE " ++ collectionName ++ " SET "
    ++ join ", " (MySqlUpdateRow.keys row) ++ " " ++ MySqlUpdateRow.where_ row.

(** [updates.map((row) => this.pool.query(...))]: every statement is issued,
    whatever the outcome of the ones before it. *)
Fixpoint issue_all (updates : list MySqlUpdateRow.t) (h : list Call)
  : list (Result QueryResult) * list Call :=
  match updates with
  | [] => ([], h)
  | row :: rest =>
      let '(r, h') :=
        pool_query (update_sql row) (Some (MySqlUpdateRow.values row)) h in
      let '(rs, h'') := issue_all rest h' in
      (r :: rs, h'')
  end.

Definition updateMany (updates : list MySqlUpdateRow.t) : IO UpdateStats :=
  try_catch
    (await! _ <- pool_beginTransaction;
     await! results <-
       (fun h => let '(settled, h') := issue_all updates h in
                 (Promise_all settled, h'));
     await! _ <- pool_commit;
     let modified :=
       fold_left (fun acc res => js_add acc (affectedRows res)) results 0%Z in
     io_ret {| status := Success; modifiedCount := Some modified |})
    (fun _ =>
       await! _ <- pool_rollback;
       io_ret {| status := Failure; modifiedCount := None |}).

Definition updateOne (updates : MySqlUpdateRow.t) : IO UpdateStats :=
  try_catch
    (await! res <-
       pool_query (update_sql updates) (Some (MySqlUpdateRow.values updates));
     io_ret {| status := Success; modifiedCount := Some (affectedRows res) |})
    (fun _ => io_ret {| status := Failure; modifiedCount := None |}).

Definition update (query : Query MySqlUpdateQueryParams.t) : IO UpdateStats :=
  match query with
  | Raw text =>
      try_catch
        (await! res <- pool_query text None;
         io_ret {| status := Success; modifiedCount := Some (affectedRows res) |})
        rethrow
  | Structured q =>
      match MySqlUpdateQueryParams.updates q with
      | [row] => updateOne row
      | several => updateMany several
      end
  end.

(** [record[key]] *)
Fixpoint property (record : Rec) (key : string) : option JsValue :=
  match record with
  | [] => None
  | (k, v) :: rest => if String.eqb k key then Some v else property rest key
  end.

Definition count (query : option (Query MySqlCountQueryParams.t))
  : IO JsNumber :=
  try_catch
    (let sql :=
       match query with
       | Some (Raw text) => text
       | Some (Structured q) =>
           join " "
             (("SELECT COUNT(*) AS count FROM " ++ collectionName)
                :: pushed (MySqlCountQueryParams.where_ q))
       | None => join " " ["SELECT COUNT(*) AS count FROM " ++ collectionName]
       end in
     await! res <- pool_query sql None;
     io_ret
       match rows res with
       | first :: _ =>
           match property first "count" with
           | Some (JNum (Finite z)) => Finite z
           | _ => NaN
           end
       | [] => NaN
       end)
    rethrow.

(** [`${text}`] for an optional text. *)
Definition show_text (text : option string) : string :=
  match text with
  | Some s => s
  | None => "undefined"
  end.

Definition aggregate (query : MySqlAggregateParams.t) : IO (list Rec) :=
  try_catch
    (let sql :=
       "SELECT " ++ MySqlAggregateParams.pipeline query
         ++ " FROM " ++ collectionName
         ++ " " ++ show_text (MySqlAggregateParams.where_ query)
         ++ " " ++ show_text (MySqlAggregateParams.groupBy query)
         ++ " " ++ show_text (MySqlAggregateParams.sort query) in
     await! res <- pool_query sql None;
     io_ret (rows res))
    rethrow.

Definition startTransaction : IO unit := pool_beginTransaction.

Definition commitTransaction : IO unit := pool_commit.

Definition rollbackTransaction : IO unit := pool_rollback.

End Collection.

End MySqlCollection.

(** ** mysql.config.ts *)

(** The environment reader of @soapjs/soap, as the four lookups
    [MySqlConfig.create] makes on it. *)
Module ConfigVars.
Record t : Type :=
  { getStringEnv : string -> option string;
    getArrayEnv : string -> option (list string);
    getBooleanEnv : string -> option bool;
    getNumberEnv : string -> option JsNumber }.
End ConfigVars.

(** [String.prototype.endsWith]: some tail of the text is the suffix. *)
Fixpoint endsWith (text suffix : string) : bool :=
  String.eqb text suffix
  || match text with
     | EmptyString => false
     | String _ rest => endsWith rest suffix
     end.

Module MySqlConfig.

Record t : Type :=
  { database : option string;
    hosts : option (list string);
    ports : option (list string);
    user : option string;
    password : option string;
    ssl : option bool;
    connectionLimit : option JsNumber;
    connectTimeout : option JsNumber;
    waitForConnections : option bool;
    charset : option string;
    timezone : option string }.

(** The constant [p] of [create]. *)
Definition variable_prefix (prefix : string) : string :=
  if String.eqb prefix EmptyString then EmptyString
  else if endsWith prefix "_" then toUpperCase prefix
  else toUpperCase prefix ++ "_".

Definition create (configVars : ConfigVars.t) (prefix : string) : t :=
  let p := variable_prefix prefix in
  {| database := ConfigVars.getStringEnv configVars (p ++ "MYSQL_DB_NAME");
     hosts := ConfigVars.getArrayEnv configVars (p ++ "MYSQL_HOSTS");
     ports := ConfigVars.getArrayEnv configVars (p ++ "MYSQL_PORTS");
     user := ConfigVars.getStringEnv configVars (p ++ "MYSQL_USER");
     password := ConfigVars.getStringEnv configVars (p ++ "MYSQL_PASSWORD");
     ssl := ConfigVars.getBooleanEnv configVars (p ++ "MYSQL_SSL");
     connectionLimit :=
       ConfigVars.getNumberEnv configVars (p ++ "MYSQL_CONNECTION_LIMIT");
     connectTimeout :=
       ConfigVars.getNumberEnv configVars (p ++ "MYSQL_CONNECT_TIMEOUT");
     waitForConnections :=
       ConfigVars.getBooleanEnv configVars (p ++ "MYSQL_WAIT_FOR_CONNECTIONS");
     charset := ConfigVars.getStringEnv configVars (p ++ "MYSQL_CHARSET");
     timezone := ConfigVars.getStringEnv configVars (p ++ "MYSQL_TIMEZONE") |}.

End MySqlConfig.

(** ** Further notions on condition trees and on calls *)

(** The error of the first node, in pre-order, that [parse] cannot compile:
    a leaf whose operator is outside the enumeration, or an object that is
    neither a leaf nor a group. *)
Fixpoint first_error (c : WhereCondition) : option JsError :=
  match c with
  | Condition _ operator _ =>
      if supported operator then None else Some (UnsupportedOperator operator)
  | NestedCondition conditions _ =>
      (fix first (cs : list WhereCondition) : option JsError :=
         match cs with
         | [] => None
         | c' :: rest =>
             match first_error c' with
             | Some e => Some e
             | None => first rest
             end
         end) conditions
  | OtherObject => Some InvalidConditionFormat
  end.

(** The placeholder characters that occur in the fields of the leaves. *)
Fixpoint field_placeholders (c : WhereCondition) : nat :=
  match c with
  | Condition left_ _ _ => count_placeholders left_
  | NestedCondition conditions _ =>
      (fix sum (cs : list WhereCondition) : nat :=
         match cs with
         | [] => 0
         | c' :: rest => field_placeholders c' + sum rest
         end) conditions
  | OtherObject => 0
  end.

(** The tree with the value of every leaf replaced by [null]. *)
Fixpoint blank (c : WhereCondition) : WhereCondition :=
  match c with
  | Condition left_ operator _ => Condition left_ operator JNull
  | NestedCondition conditions operator =>
      NestedCondition
        ((fix each (cs : list WhereCondition) : list WhereCondition :=
            match cs with
            | [] => []
            | c' :: rest => blank c' :: each rest
            end) conditions)
        operator
  | OtherObject => OtherObject
  end.

(** The text of a compilation, or its error. *)
Definition text_of (r : Result MySqlWhereParser.Fragment) : Result string :=
  try! fragment <- r; Ok (MySqlWhereParser.query fragment).

(** The call [updateOne] and [updateMany] make for a row. *)
Definition row_call (collectionName : string) (row : MySqlUpdateRow.t) : Call :=
  CallQuery (MySqlCollection.update_sql collectionName row)
    (Some (MySqlUpdateRow.values row)).

(** The number of affected rows a batch of results adds up to. *)
Definition total_affected (results : list QueryResult) : Z :=
  fold_left (fun acc res => (acc + affectedRows res)%Z) results 0%Z.

(** A selector of an aggregation is given: present and not empty. *)
Definition given (selector : option string) : bool :=
  match selector with
  | Some name => negb (String.eqb name EmptyString)
  | None => false
  end.

(** What [count] makes of the rows a query resolved to. *)
Definition counted (res : QueryResult) : JsNumber :=
  match rows res with
  | first :: _ =>
      match MySqlCollection.property first "count" with
      | Some (JNum (Finite z)) => Finite z
      | _ => NaN
      end
  | [] => NaN
  end.

(** ** Outcomes of the operations of the collection *)

(** An operation raises when its promise is rejected with a
    [CollectionError]. *)
Definition raises {A : Type} (outcome : Result A * list Call) : Prop :=
  exists cause, fst outcome = Throw (CollectionError cause).

(** An operation that issues one statement and raises when the pool rejects
    it: from every history it makes exactly one call, a query, and if the
    pool answers that query with a rejection the operation is rejected with
    the [CollectionError] of that rejection. *)
Definition rejection_raises {A : Type} (pool : Pool.t) (operation : IO A)
  : Prop :=
  forall h : list Call,
  exists (sql : string) (vals : option (list JsValue)),
    snd (operation h) = (h ++ [CallQuery sql vals])%list
    /\ forall e : JsError,
        Pool.query pool h sql vals = Throw e ->
        fst (operation h) = Throw (CollectionError e).

(** A call of the transaction of a batch of updates, begun from history [h],
    is rejected: the opening of the transaction, one of the statements, or
    the commit that follows them. *)
Definition transaction_rejected (pool : Pool.t) (collectionName : string)
    (updates : list MySqlUpdateRow.t) (h : list Call) : Prop :=
  let issued :=
    MySqlCollection.issue_all pool collectionName updates
      (h ++ [CallBeginTransaction])%list in
  (exists e : JsError, Pool.beginTransaction pool h = Throw e)
  \/ (exists e : JsError, In (Throw e) (fst issued))
  \/ (exists e : JsError, Pool.commit pool (snd issued) = Throw e).

(** ** Sample inputs *)

Definition adults_or_active : WhereCondition :=
  NestedCondition
    [Condition "age" "gt" (JInt 18);
     NestedCondition
       [Condition "status" "eq" (JStr "active");
        Condition "role" "in" (JArr [JStr "admin"; JStr "owner"])] and_]
    or_.

Definition rename_ann : Rec := [("name", JStr "Ann")].

Definition by_id (id : Z) : Where :=
  {| result := Some (Condition "id" "eq" (JInt id)) |}.

Definition rename_ann_row : MySqlUpdateRow.t :=
  {| MySqlUpdateRow.keys := ["name = ?"];
     MySqlUpdateRow.values := [JStr "Ann"];
     MySqlUpdateRow.where_ := "id = ?" |}.

Definition three_payloads : list Rec :=
  [[("name", JStr "Ann")];
   [("name", JStr "Bob"); ("age", JInt 41)];
   [("age", JInt 7)]].

(** A pool whose connection is lost: every statement is rejected, the
    transaction calls resolve. *)
Definition dead_pool : Pool.t :=
  {| Pool.query := fun _ _ _ => Throw (DriverFailure "ECONNRESET");
     Pool.beginTransaction := fun _ => Ok tt;
     Pool.commit := fun _ => Ok tt;
     Pool.rollback := fun _ => Ok tt |}.

Definition find_params (limit offset : option JsNumber) : FindParams.t :=
  {| FindParams.limit := limit;
     FindParams.offset := offset;
     FindParams.sort := None;
     FindParams.where_ := None |}.

Definition limit_only (text : option string) : MySqlFindQueryParams.t :=
  {| MySqlFindQueryParams.where_ := None;
     MySqlFindQueryParams.limit := text;
     MySqlFindQueryParams.sort := None |}.

Definition two_users : MySqlInsertQueryParams.t :=
  {| MySqlInsertQueryParams.documents :=
       [[("name", JStr "Ann")]; [("name", JStr "Bob")]] |}.

(** A pool that accepts every statement, reporting 41 as the last insert id
    and one affected row. *)
Definition live_pool : Pool.t :=
  {| Pool.query := fun _ _ _ =>
       Ok {| rows := []; insertId := 41; affectedRows := 1 |};
     Pool.beginTransaction := fun _ => Ok tt;
     Pool.commit := fun _ => Ok tt;
     Pool.rollback := fun _ => Ok tt |}.

(** A pool that loses its connection after two calls: from the third call
    on, every statement is rejected. *)
Definition flaky_pool : Pool.t :=
  {| Pool.query := fun h _ _ =>
       if Nat.leb 2 (List.length h)
       then Throw (DriverFailure "ECONNRESET")
       else Ok {| rows := []; insertId := 41; affectedRows := 1 |};
     Pool.beginTransaction := fun _ => Ok tt;
     Pool.commit := fun _ => Ok tt;
     Pool.rollback := fun _ => Ok tt |}.

(** A pool whose count query resolves to one row holding the count 4. *)
Definition counting_pool : Pool.t :=
  {| Pool.query := fun _ _ _ =>
       Ok {| rows := [[("count", JInt 4)]]; insertId := 0; affectedRows := 0 |};
     Pool.beginTransaction := fun _ => Ok tt;
     Pool.commit := fun _ => Ok tt;
     Pool.rollback := fun _ => Ok tt |}.

(** A pool on which every call is rejected, the rollback with an error of
    its own. *)
Definition lost_pool : Pool.t :=
  {| Pool.query := fun _ _ _ => Throw (DriverFailure "ECONNRESET");
     Pool.beginTransaction := fun _ => Throw (DriverFailure "ECONNRESET");
     Pool.commit := fun _ => Throw (DriverFailure "ECONNRESET");
     Pool.rollback := fun _ => Throw (DriverFailure "EPIPE") |}.

(** An environment that defines the database name under one variable. *)
Definition app_environment : ConfigVars.t :=
  {| ConfigVars.getStringEnv := fun name =>
       if String.eqb name "APP_MYSQL_DB_NAME" then Some "shop" else None;
     ConfigVars.getArrayEnv := fun _ => None;
     ConfigVars.getBooleanEnv := fun _ => None;
     ConfigVars.getNumberEnv := fun _ => None |}.

(** ** The query factory in the world of its caller *)

(** What a method of the factory could act on besides its result: the arrays
    its caller holds and passes by reference, arrays of conditions and arrays
    of payloads, and the calls made on the pool so far.  An entry of an array
    of conditions is [None] where the array holds [undefined]. *)
Record World : Type :=
  { where_arrays : list (list (option Where));
    payload_arrays : list (list Rec);
    calls : list Call }.

(** A computation in that world. *)
Definition Eff (A : Type) : Type := World -> Result A * World.

Definition eff_ret {A : Type} (a : A) : Eff A := fun w => (Ok a, w).

Definition eff_lift {A : Type} (r : Result A) : Eff A := fun w => (r, w).

Definition eff_bind {A B : Type} (m : Eff A) (k : A -> Eff B) : Eff B :=
  fun w =>
    match m w with
    | (Ok a, w') => k a w'
    | (Throw e, w') => (Throw e, w')
    end.

Notation "'run!' x <- m ; k" := (eff_bind m (fun x => k))
  (at level 10, x name, m at level 100, k at level 200).

(** An operation of the collection run in the world: the calls it makes are
    added to those of the world. *)
Definition perform {A : Type} (operation : IO A) : Eff A :=
  fun w =>
    let '(r, h) := operation (calls w) in
    (r, {| where_arrays := where_arrays w;
           payload_arrays := payload_arrays w;
           calls := h |}).

(** The list with its element of index [i], if any, replaced by its image. *)
Fixpoint update_at {A : Type} (i : nat) (f : A -> A) (l : list A) : list A :=
  match l, i with
  | [], _ => []
  | x :: rest, O => f x :: rest
  | x :: rest, S j => x :: update_at j f rest
  end.

(** The array of conditions a reference designates. *)
Definition read_where_array (reference : nat) : Eff (list (option Where)) :=
  fun w => (Ok (nth reference (where_arrays w) []), w).

(** The array of payloads a reference designates. *)
Definition read_payload_array (reference : nat) : Eff (list Rec) :=
  fun w => (Ok (nth reference (payload_arrays w) []), w).

(** [where.push(entry)] on the array a reference designates. *)
Definition push_where (reference : nat) (entry : option Where) : Eff unit :=
  fun w =>
    (Ok tt,
     {| where_arrays :=
          update_at reference (fun array => (array ++ [entry])%list)
            (where_arrays w);
        payload_arrays := payload_arrays w;
        calls := calls w |}).

Module MySqlQueryFactoryInWorld.

Import MySqlWhereParser.

(** [createFindQuery], [createCountQuery], [createRemoveQuery] and
    [createAggregationQuery] receive a parameter object and no array; what
    they compute from it is given by the functions of [MySqlQueryFactory]. *)
Definition createFindQuery (params : FindParams.t)
  : Eff MySqlFindQueryParams.t :=
  eff_lift (MySqlQueryFactory.createFindQuery params).

Definition createCountQuery (params : CountParams.t)
  : Eff MySqlCountQueryParams.t :=
  eff_lift (MySqlQueryFactory.createCountQuery params).

Definition createRemoveQuery (params : RemoveParams.t)
  : Eff MySqlDeleteQueryParams.t :=
  eff_lift (MySqlQueryFactory.createRemoveQuery params).

Definition createAggregationQuery (params : AggregationParams.t)
  : Eff MySqlAggregateParams.t :=
  eff_ret (MySqlQueryFactory.createAggregationQuery params).

(** [where.at(-1)] on an array that may hold [undefined]. *)
Definition last_entry (where_ : list (option Where)) : option Where :=
  match MySqlQueryFactory.at_last where_ with
  | Some entry => entry
  | None => None
  end.

(** [for (let i = 0; i < diff; i++) where.push(lastWhere)] *)
Fixpoint push_loop (diff : nat) (where_ref : nat) (lastWhere : option Where)
  : Eff unit :=
  match diff with
  | O => eff_ret tt
  | S remaining =>
      run! _ <- push_where where_ref lastWhere;
      push_loop remaining where_ref lastWhere
  end.

(** The [forEach] over the payloads: each turn reads [where[i]] in the
    caller's array and pushes a row to the local [rows]. *)
Fixpoint forEach_update (updates : list Rec) (i : nat) (where_ref : nat)
    (rows : list MySqlUpdateRow.t) : Eff (list MySqlUpdateRow.t) :=
  match updates with
  | [] => eff_ret rows
  | update :: rest =>
      run! where_ <- read_where_array where_ref;
      run! w <-
        eff_lift
          match nth_error where_ i with
          | Some (Some w) => Ok w
          | _ => Throw (TypeError "Cannot read properties of undefined (reading 'result')")
          end;
      run! parsed <- eff_lift (parse (result w));
      let row :=
        {| MySqlUpdateRow.keys :=
             map (fun key => key ++ " = ?") (Object_keys update);
           MySqlUpdateRow.values := Object_values update;
           MySqlUpdateRow.where_ := query parsed |} in
      forEach_update rest (S i) where_ref (rows ++ [row])%list
  end.

(** [createUpdateQuery(updates, where)], its two arrays given by reference. *)
Definition createUpdateQuery (updates_ref where_ref : nat)
  : Eff MySqlUpdateQueryParams.t :=
  run! updates <- read_payload_array updates_ref;
  run! where_ <- read_where_array where_ref;
  let diff := (Z.of_nat (List.length updates) - Z.of_nat (List.length where_))%Z in
  run! _ <-
    (if (0 <? diff)%Z
     then push_loop (Z.to_nat diff) where_ref (last_entry where_)
     else eff_ret tt);
  run! rows <- forEach_update updates 0 where_ref [];
  eff_ret {| MySqlUpdateQueryParams.updates := rows |}.

End MySqlQueryFactoryInWorld.

(** The world of a caller that holds three payloads and one condition. *)
Definition caller_world : World :=
  {| where_arrays := [[Some (by_id 7)]];
     payload_arrays := [three_payloads];
     calls := [] |}.

(** * Properties *)

(** ** Texts and placeholders *)

Lemma count_placeholders_app (a b : string) :
  count_placeholders (a ++ b) = count_placeholders a + count_placeholders b.
Proof.
  induction a as [|c a IH]; simpl; [reflexivity|].
  rewrite IH. lia.
Qed.

(** A separator without placeholder adds none to a joined text. *)
Lemma count_placeholders_join (sep : string) (parts : list string) :
  count_placeholders sep = 0 ->
  count_placeholders (join sep parts)
  = list_sum (map count_placeholders parts).
Proof.
  intros Hsep. unfold join.
  induction parts as [|p rest IH]; simpl; [reflexivity|].
  destruct rest as [|q rest].
  - simpl. lia.
  - rewrite !count_placeholders_app, Hsep, IH. simpl. lia.
Qed.

Lemma joiner_has_no_placeholder (operator : LogicalOperator) :
  count_placeholders (" " ++ toUpperCase (logical_text operator) ++ " ") = 0.
Proof. destruct operator; reflexivity. Qed.

(** ** The where parser *)

Section WhereParser.

Import MySqlWhereParser.

Lemma leaves_nested (conditions : list WhereCondition) (operator : LogicalOperator) :
  leaves (NestedCondition conditions operator) = list_sum (map leaves conditions).
Proof.
  simpl. induction conditions as [|c rest IH]; simpl; [reflexivity|].
  now rewrite IH.
Qed.

Lemma leaf_values_nested (conditions : list WhereCondition) (operator : LogicalOperator) :
  leaf_values (NestedCondition conditions operator)
  = flat_map leaf_values conditions.
Proof.
  simpl. induction conditions as [|c rest IH]; simpl; [reflexivity|].
  now rewrite IH.
Qed.

Lemma well_formed_nested (conditions : list WhereCondition) (operator : LogicalOperator) :
  well_formed (NestedCondition conditions operator)
  = forallb well_formed conditions.
Proof.
  simpl. induction conditions as [|c rest IH]; simpl; [reflexivity|].
  now rewrite IH.
Qed.

Lemma parseNode_loop (conditions : list WhereCondition)
    (sqlParts : list string) (vals : list JsValue) :
  (fix loop (cs : list WhereCondition)
       (sqlParts : list string) (vals : list JsValue)
     : Result (list string * list JsValue) :=
     match cs with
     | [] => Ok (sqlParts, vals)
     | condition :: rest =>
         try! parsed <- parseNode condition;
         loop rest (sqlParts ++ [("(" ++ query parsed ++ ")")%string])%list
              (vals ++ values parsed)%list
     end) conditions sqlParts vals
  = nested_loop parseNode conditions sqlParts vals.
Proof.
  revert sqlParts vals.
  induction conditions as [|c rest IH]; intros parts vals; simpl; [reflexivity|].
  destruct (parseNode c) as [parsed|e]; simpl; [apply IH | reflexivity].
Qed.

(** The recursive call of the source goes through [parse]; on a group it is
    [parseNestedCondition]. *)
Lemma parseNode_nested (conditions : list WhereCondition) (operator : LogicalOperator) :
  parseNode (NestedCondition conditions operator)
  = parseNestedCondition conditions operator.
Proof.
  exact (f_equal (fun r => rbind r (fun acc => Ok (nested_result operator acc)))
           (parseNode_loop conditions [] [])).
Qed.

Lemma leaf_values_length (c : WhereCondition) :
  List.length (leaf_values c) = leaves c.
Proof.
  induction c as [l o r | cs o IH | ] using WhereCondition_tree_ind;
    [reflexivity | | reflexivity].
  rewrite leaf_values_nested, leaves_nested.
  induction IH as [|c rest Hc _ IHrest]; simpl; [reflexivity|].
  rewrite length_app. now rewrite Hc, IHrest.
Qed.

Lemma supported_operator_converts (operator : string) :
  supported operator = true ->
  exists token,
    convertOperatorToSql operator = Ok token /\ count_placeholders token = 0.
Proof.
  unfold supported, supported_operators. intros H.
  apply existsb_exists in H. destruct H as [known [Hin Heq]].
  apply String.eqb_eq in Heq. subst known.
  simpl in Hin.
  repeat (destruct Hin as [<- | Hin]; [eexists; split; reflexivity|]).
  contradiction.
Qed.

Lemma unsupported_operator_throws (operator : string) :
  supported operator = false ->
  convertOperatorToSql operator = Throw (UnsupportedOperator operator).
Proof.
  unfold supported, supported_operators. simpl. intros H.
  repeat (apply orb_false_elim in H; destruct H as [? H]).
  unfold convertOperatorToSql.
  repeat match goal with
         | E : String.eqb operator _ = false |- _ => rewrite E; clear E
         end.
  reflexivity.
Qed.

Lemma fill_without_placeholder (text : string) (args : list string) :
  count_placeholders text = 0 -> fill text args = text.
Proof.
  induction text as [|c rest IH]; cbn [count_placeholders fill];
    [reflexivity|].
  destruct (Ascii.eqb c "?"); intros H; [discriminate|].
  now rewrite IH.
Qed.

Lemma append_assoc (a b c : string) : ((a ++ b) ++ c = a ++ (b ++ c))%string.
Proof. induction a as [|x a IH]; cbn; [reflexivity | now rewrite IH]. Qed.

Lemma append_empty (a : string) : (a ++ EmptyString)%string = a.
Proof. induction a as [|x a IH]; cbn; [reflexivity | now rewrite IH]. Qed.

(** Binding to a concatenation: the first text takes as many arguments as it
    has placeholders, the second one the rest. *)
Lemma fill_app (a b : string) :
  forall args_a args_b : list string,
    count_placeholders a = List.length args_a ->
    fill (a ++ b) (args_a ++ args_b) = (fill a args_a ++ fill b args_b)%string.
Proof.
  induction a as [|c a IH]; intros args_a args_b H.
  - destruct args_a; [reflexivity | discriminate].
  - cbn [count_placeholders] in H. cbn [append fill].
    destruct (Ascii.eqb c "?").
    + destruct args_a as [|arg args_a]; [discriminate|].
      cbn [List.length] in H. cbn [List.app].
      rewrite IH by lia. now rewrite append_assoc.
    + cbn [append]. now rewrite IH by exact H.
Qed.

Lemma fill_app_plain (a b : string) (args : list string) :
  count_placeholders a = 0 -> fill (a ++ b) args = (a ++ fill b args)%string.
Proof.
  intros H. pose proof (fill_app a b [] args H) as E.
  cbn [List.app] in E. rewrite E.
  now rewrite (fill_without_placeholder a [] H).
Qed.

Section Compilation.

Variable show : JsValue -> string.

Lemma inline_nested (conditions : list WhereCondition) (operator : LogicalOperator) :
  inline show (NestedCondition conditions operator)
  = join (" " ++ toUpperCase (logical_text operator) ++ " ")
      (map (fun c => in_parentheses (inline show c)) conditions).
Proof.
  reflexivity.
Qed.

(** What the loop of [parseNestedCondition] leaves in its two arrays when
    every child compiles: the parenthesized texts and the values of the
    children, in their order, after what the arrays held. *)
Lemma nested_loop_children (conditions : list WhereCondition) :
  Forall (fun c =>
            well_formed c = true -> exists fragment, compiles_to show c fragment)
    conditions ->
  forallb well_formed conditions = true ->
  exists fragments,
    Forall2 (compiles_to show) conditions fragments
    /\ forall (sqlParts : list string) (vals : list JsValue),
        nested_loop parseNode conditions sqlParts vals
        = Ok ((sqlParts
                 ++ map (fun f => in_parentheses (query f)) fragments)%list,
              (vals ++ flat_map values fragments)%list).
Proof.
  induction 1 as [|c rest Hc _ IH]; intros Hwf.
  - exists []. split; [constructor|].
    intros parts vals. cbn. now rewrite !app_nil_r.
  - cbn [forallb] in Hwf. apply andb_true_iff in Hwf.
    destruct Hwf as [Hwc Hwrest].
    destruct (Hc Hwc) as [fragment Hfragment].
    destruct (IH Hwrest) as [fragments [Hall Hloop]].
    exists (fragment :: fragments). split; [now constructor|].
    intros parts vals. cbn [nested_loop].
    destruct Hfragment as [Hparse _]. cbn [parse] in Hparse.
    rewrite Hparse. cbn [rbind]. rewrite Hloop.
    cbn [map flat_map]. now rewrite <- !app_assoc.
Qed.

Lemma compiled_values_length (c : WhereCondition) (fragment : Fragment) :
  compiles_to show c fragment ->
  count_placeholders (query fragment)
  = List.length (map show (values fragment)).
Proof.
  intros [_ [Hcount [Hvalues _]]].
  now rewrite length_map, Hvalues, leaf_values_length.
Qed.

Lemma fill_in_parentheses (c : WhereCondition) (fragment : Fragment) :
  compiles_to show c fragment ->
  fill (in_parentheses (query fragment)) (map show (values fragment))
  = in_parentheses (inline show c).
Proof.
  intros H. pose proof (compiled_values_length c fragment H) as Hlen.
  destruct H as [_ [_ [_ Hfill]]].
  unfold in_parentheses.
  rewrite fill_app_plain by reflexivity.
  rewrite <- (app_nil_r (map show (values fragment))).
  rewrite fill_app by exact Hlen.
  now rewrite Hfill.
Qed.

Lemma children_counts (conditions : list WhereCondition) (fragments : list Fragment) :
  Forall2 (compiles_to show) conditions fragments ->
  list_sum (map count_placeholders
              (map (fun f => in_parentheses (query f)) fragments))
  = list_sum (map leaves conditions)
  /\ flat_map values fragments = flat_map leaf_values conditions.
Proof.
  unfold list_sum.
  induction 1 as [|c f cs fs [_ [Hcount [Hvalues _]]] _ [IHn IHv]];
    [split; reflexivity|].
  cbn [map fold_right flat_map]. rewrite IHn, IHv, Hvalues.
  split; [|reflexivity].
  unfold in_parentheses. rewrite !count_placeholders_app, Hcount. cbn. lia.
Qed.

Lemma children_fill (sep : string)
    (conditions : list WhereCondition) (fragments : list Fragment) :
  count_placeholders sep = 0 ->
  Forall2 (compiles_to show) conditions fragments ->
  fill (join sep (map (fun f => in_parentheses (query f)) fragments))
    (map show (flat_map values fragments))
  = join sep (map (fun c => in_parentheses (inline show c)) conditions).
Proof.
  intros Hsep. unfold join.
  induction 1 as [|c f cs fs Hcf Hrest IH]; [reflexivity|].
  destruct Hrest as [|c2 f2 cs fs Hcf2 Hrest].
  - cbn [map String.concat flat_map]. rewrite app_nil_r.
    now apply fill_in_parentheses.
  - change (flat_map values (f :: f2 :: fs))
      with (values f ++ flat_map values (f2 :: fs))%list.
    change (String.concat sep
              (map (fun f => in_parentheses (query f)) (f :: f2 :: fs)))
      with (in_parentheses (query f) ++ sep
              ++ String.concat sep
                   (map (fun f => in_parentheses (query f)) (f2 :: fs)))%string.
    change (String.concat sep
              (map (fun c => in_parentheses (inline show c)) (c :: c2 :: cs)))
      with (in_parentheses (inline show c) ++ sep
              ++ String.concat sep
                   (map (fun c => in_parentheses (inline show c)) (c2 :: cs)))%string.
    rewrite map_app, fill_app.
    + rewrite fill_app_plain by exact Hsep.
      now rewrite IH, (fill_in_parentheses c f Hcf).
    + pose proof (compiled_values_length c f Hcf) as Hlen.
      unfold in_parentheses. rewrite !count_placeholders_app, Hlen. cbn. lia.
Qed.

Lemma parseNode_compiles (c : WhereCondition) :
  well_formed c = true -> exists fragment, compiles_to show c fragment.
Proof.
  induction c as [l o r | cs o IH | ] using WhereCondition_tree_ind.
  - intros H. cbn [well_formed] in H.
    apply andb_true_iff in H. destruct H as [Hop Hfield].
    apply Nat.eqb_eq in Hfield.
    destruct (supported_operator_converts o Hop) as [token [Hconv Htoken]].
    exists {| query := l ++ " " ++ token ++ " ?"; values := [r] |}.
    unfold compiles_to. cbn [parse parseNode query values leaves leaf_values].
    unfold parseSimpleCondition. rewrite Hconv. cbn [rbind].
    split; [reflexivity|]. split; [|split; [reflexivity|]].
    + rewrite !count_placeholders_app, Hfield, Htoken. reflexivity.
    + cbn [inline map]. unfold sql_token. rewrite Hconv.
      rewrite (fill_app_plain l) by exact Hfield.
      rewrite (fill_app_plain " ") by reflexivity.
      rewrite (fill_app_plain token) by exact Htoken.
      cbn [fill Ascii.eqb Bool.eqb]. now rewrite append_empty.
  - rewrite well_formed_nested. intros Hwf.
    destruct (nested_loop_children cs IH Hwf) as [fragments [Hall Hloop]].
    destruct (children_counts cs fragments Hall) as [Hsum Hvalues].
    exists (nested_result o
              (map (fun f => in_parentheses (query f)) fragments,
               flat_map values fragments)).
    unfold compiles_to. cbn [parse].
    rewrite parseNode_nested, leaves_nested, leaf_values_nested, inline_nested.
    unfold parseNestedCondition. rewrite Hloop. cbn [rbind List.app].
    split; [reflexivity|].
    unfold nested_result. cbn [query values fst snd].
    split; [|split; [exact Hvalues|]].
    + rewrite count_placeholders_join by apply joiner_has_no_placeholder.
      exact Hsum.
    + apply children_fill; [apply joiner_has_no_placeholder | exact Hall].
  - discriminate.
Qed.

End Compilation.

(** C1: for every condition tree within the data model (leaf operators of
    the enumeration, fields free of the placeholder character) with n leaves,
    [parse] returns a fragment whose text has exactly n placeholders and whose
    values are the n leaf values in pre-order, left to right, so that binding
    the values to the placeholders in order puts each value at its own leaf; a
    leaf gives one placeholder and one value. *)
Theorem parse_placeholders_match_values (c : WhereCondition) :
  well_formed c = true ->
  exists fragment,
    parse (Some c) = Ok fragment
    /\ count_placeholders (query fragment) = leaves c
    /\ List.length (values fragment) = leaves c
    /\ values fragment = leaf_values c
    /\ forall show : JsValue -> string,
        fill (query fragment) (map show (values fragment)) = inline show c.
Proof.
  intros Hwf.
  destruct (parseNode_compiles (fun _ => EmptyString) c Hwf)
    as [fragment [Hparse [Hcount [Hvalues _]]]].
  exists fragment. repeat split; try assumption.
  - rewrite Hvalues. apply leaf_values_length.
  - intros show.
    destruct (parseNode_compiles show c Hwf) as [other [Hother [_ [_ Hfill]]]].
    rewrite Hparse in Hother. inversion Hother; subst other. exact Hfill.
Qed.

Lemma parse_placeholders_match_values_witness :
  well_formed adults_or_active = true
  /\ exists fragment,
      parse (Some adults_or_active) = Ok fragment
      /\ count_placeholders (query fragment) = leaves adults_or_active
      /\ List.length (values fragment) = leaves adults_or_active
      /\ values fragment = leaf_values adults_or_active
      /\ forall show : JsValue -> string,
          fill (query fragment) (map show (values fragment))
          = inline show adults_or_active.
Proof.
  split; [reflexivity|].
  apply (parse_placeholders_match_values adults_or_active). reflexivity.
Defined.

End WhereParser.

Section OperatorEnumeration.

Import MySqlWhereParser.

Lemma has_unsupported_nested (conditions : list WhereCondition) (operator : LogicalOperator) :
  has_unsupported (NestedCondition conditions operator)
  = existsb has_unsupported conditions.
Proof.
  simpl. induction conditions as [|c rest IH]; simpl; [reflexivity|].
  now rewrite IH.
Qed.

Lemma supported_cases (operator : string) :
  supported operator = true -> In operator supported_operators.
Proof.
  unfold supported. intros H.
  apply existsb_exists in H. destruct H as [known [Hin Heq]].
  apply String.eqb_eq in Heq. now subst known.
Qed.

Lemma convertOperatorToSql_injective (a b : string) :
  supported a = true -> supported b = true ->
  convertOperatorToSql a = convertOperatorToSql b -> a = b.
Proof.
  intros Ha Hb.
  apply supported_cases in Ha. apply supported_cases in Hb.
  simpl in Ha, Hb.
  repeat (destruct Ha as [<- | Ha]; [| ]);
    try contradiction;
    repeat (destruct Hb as [<- | Hb]; [| ]);
    try contradiction;
    cbv; intros E; first [reflexivity | discriminate E].
Qed.

(** A loop that meets a child which throws, throws. *)
Lemma nested_loop_throws (conditions : list WhereCondition) :
  Forall (fun c =>
            has_unsupported c = true -> exists e, parseNode c = Throw e)
    conditions ->
  existsb has_unsupported conditions = true ->
  forall (sqlParts : list string) (vals : list JsValue),
  exists e, nested_loop parseNode conditions sqlParts vals = Throw e.
Proof.
  induction 1 as [|c rest Hc _ IH]; intros Hbad parts vals.
  - discriminate.
  - cbn [existsb] in Hbad. cbn [nested_loop].
    destruct (parseNode c) as [parsed|e] eqn:Hparse.
    + cbn [rbind]. apply IH.
      destruct (has_unsupported c); [|exact Hbad].
      destruct (Hc eq_refl) as [e He]. discriminate He.
    + exists e. reflexivity.
Qed.

Lemma unsupported_leaf_throws (c : WhereCondition) :
  has_unsupported c = true -> exists e, parseNode c = Throw e.
Proof.
  induction c as [l o r | cs o IH | ] using WhereCondition_tree_ind.
  - cbn [has_unsupported parseNode]. intros H.
    apply negb_true_iff in H.
    exists (UnsupportedOperator o). unfold parseSimpleCondition.
    now rewrite (unsupported_operator_throws o H).
  - rewrite has_unsupported_nested, parseNode_nested. intros H.
    destruct (nested_loop_throws cs IH H [] []) as [e He].
    exists e. unfold parseNestedCondition. now rewrite He.
  - discriminate.
Qed.

(** C9: the operator enumeration is closed.  The nine operators are mapped
    to their SQL tokens, one to one; an operator outside the enumeration makes
    [convertOperatorToSql] throw, so compiling a leaf that carries it throws,
    and so does compiling any tree that contains such a leaf. *)
Theorem operator_enumeration_closed :
  map convertOperatorToSql supported_operators
  = map Ok ["="; "!="; ">"; "<"; ">="; "<="; "IN"; "NOT IN"; "LIKE"]
  /\ (forall a b : string,
         supported a = true -> supported b = true ->
         convertOperatorToSql a = convertOperatorToSql b -> a = b)
  /\ (forall (operator left_ : string) (right_ : JsValue),
         supported operator = false ->
         convertOperatorToSql operator = Throw (UnsupportedOperator operator)
         /\ parse (Some (Condition left_ operator right_))
            = Throw (UnsupportedOperator operator))
  /\ (forall c : WhereCondition,
         has_unsupported c = true -> exists e, parse (Some c) = Throw e).
Proof.
  split; [reflexivity|].
  split; [exact convertOperatorToSql_injective|].
  split.
  - intros operator l r H.
    pose proof (unsupported_operator_throws operator H) as Hthrow.
    split; [exact Hthrow|].
    cbn [parse parseNode]. unfold parseSimpleCondition. now rewrite Hthrow.
  - intros c H. exact (unsupported_leaf_throws c H).
Qed.

Lemma operator_enumeration_closed_witness :
  supported "between" = false
  /\ parse (Some (Condition "age" "between" (JInt 18)))
     = Throw (UnsupportedOperator "between")
  /\ exists e,
      parse (Some (NestedCondition
                     [Condition "age" "gt" (JInt 18);
                      Condition "name" "regex" (JStr "^a")] and_))
      = Throw e.
Proof.
  destruct operator_enumeration_closed as [_ [_ [Hleaf Htree]]].
  split; [reflexivity|].
  split; [exact (proj2 (Hleaf "between" "age" (JInt 18) eq_refl))|].
  apply Htree. reflexivity.
Defined.

End OperatorEnumeration.

(** ** The query factory: updates *)

Section UpdateQuery.

Import MySqlWhereParser MySqlQueryFactory.

Lemma padded_length (updates : list Rec) (where_ : list Where) :
  List.length updates <= List.length (padded updates where_).
Proof.
  unfold padded.
  destruct (Z.ltb_spec 0
              (Z.of_nat (List.length updates) - Z.of_nat (List.length where_)))
    as [Hlt | Hge].
  - rewrite length_app, length_map, repeat_length. lia.
  - rewrite length_map. lia.
Qed.

(** The [forEach] pairs payload [i + j] with entry [i + j] of the array. *)
Lemma forEach_update_rows_from (updates : list Rec) :
  forall (i : nat) (where_ : list (option Where)) (rows : list MySqlUpdateRow.t),
    List.length updates + i <= List.length where_ ->
    forEach_update updates i where_ rows
    = try! added <- rows_from updates (skipn i where_); Ok (rows ++ added)%list.
Proof.
  induction updates as [|u rest IH]; intros i W rows Hlen.
  - simpl. now rewrite app_nil_r.
  - cbn [forEach_update rows_from].
    cbn [List.length] in Hlen.
    destruct (nth_error W i) as [entry|] eqn:Hnth.
    2:{ apply nth_error_None in Hnth. lia. }
    assert (Hskip : skipn i W = entry :: skipn (S i) W).
    { clear - Hnth. revert W Hnth.
      induction i as [|i IHi]; intros [|x W] H; simpl in H; try discriminate.
      - now inversion H.
      - cbn [skipn]. now apply IHi. }
    rewrite Hskip.
    destruct entry as [w|]; cbn [hd tl compiled_text rbind]; [|reflexivity].
    destruct (parse (result w)) as [parsed|e]; cbn [rbind]; [|reflexivity].
    rewrite IH by lia.
    destruct (rows_from rest (skipn (S i) W)) as [others|e]; cbn [rbind];
      [|reflexivity].
    unfold update_row. now rewrite <- app_assoc.
Qed.

Lemma createUpdateQuery_rows (updates : list Rec) (where_ : list Where) :
  fst (createUpdateQuery updates where_)
  = try! rows <- rows_from updates (padded updates where_);
    Ok {| MySqlUpdateQueryParams.updates := rows |}.
Proof.
  unfold createUpdateQuery. cbn [fst].
  rewrite forEach_update_rows_from
    by (pose proof (padded_length updates where_); lia).
  cbn [skipn].
  destruct (rows_from updates (padded updates where_)); reflexivity.
Qed.

(** Rows that were produced carry the keys and the values of their payloads. *)
Lemma rows_from_payloads (updates : list Rec) :
  forall (where_ : list (option Where)) (rows : list MySqlUpdateRow.t),
    rows_from updates where_ = Ok rows ->
    map MySqlUpdateRow.keys rows
    = map (fun u => map (fun key => key ++ " = ?") (Object_keys u)) updates
    /\ map MySqlUpdateRow.values rows = map Object_values updates
    /\ map (fun row => Ok (MySqlUpdateRow.where_ row)) rows
       = map compiled_text (firstn (List.length updates) where_).
Proof.
  induction updates as [|u rest IH]; intros W rows H.
  - simpl in H. inversion H. repeat split; reflexivity.
  - cbn [rows_from] in H.
    destruct (compiled_text (hd None W)) as [text|e] eqn:Htext;
      cbn [rbind] in H; [|discriminate].
    destruct (rows_from rest (tl W)) as [others|e] eqn:Hrest;
      cbn [rbind] in H; [|discriminate].
    inversion H; subst rows; clear H.
    destruct (IH _ _ Hrest) as [Hk [Hv Hw]].
    cbn [map update_row MySqlUpdateRow.keys MySqlUpdateRow.values
           MySqlUpdateRow.where_ List.length].
    rewrite Hk, Hv. repeat split.
    destruct W as [|entry W].
    + cbn [hd compiled_text] in Htext. discriminate.
    + cbn [hd tl firstn map] in *. now rewrite Htext, Hw.
Qed.

(** The rows depend on the entries of the array through their compiled
    texts only. *)
Lemma rows_from_texts (updates : list Rec) :
  forall (where_ where' : list (option Where)),
    map compiled_text where_ = map compiled_text where' ->
    rows_from updates where_ = rows_from updates where'.
Proof.
  induction updates as [|u rest IH]; intros W W' H; [reflexivity|].
  cbn [rows_from].
  destruct W as [|a W], W' as [|a' W']; try discriminate H.
  - reflexivity.
  - cbn [map] in H. inversion H as [[Ha Hrest]].
    cbn [hd tl]. rewrite Ha. now rewrite (IH _ _ Hrest).
Qed.

End UpdateQuery.

Section UpdateClaims.

Import MySqlWhereParser MySqlQueryFactory.

Lemma padded_no_excess (updates : list Rec) (where_ : list Where) :
  List.length updates <= List.length where_ ->
  padded updates where_ = map Some where_.
Proof.
  intros H. unfold padded.
  destruct (Z.ltb_spec 0
              (Z.of_nat (List.length updates) - Z.of_nat (List.length where_)))
    as [Hlt | Hge]; [lia | reflexivity].
Qed.

Lemma padded_excess (updates : list Rec) (where_ : list Where) :
  List.length where_ < List.length updates ->
  padded updates where_
  = (map Some where_
       ++ repeat (at_last where_)
            (List.length updates - List.length where_))%list.
Proof.
  intros H. unfold padded.
  destruct (Z.ltb_spec 0
              (Z.of_nat (List.length updates) - Z.of_nat (List.length where_)))
    as [Hlt | Hge]; [|lia].
  do 2 f_equal. lia.
Qed.

Lemma at_last_app (A : Type) (l : list A) (x : A) :
  at_last (l ++ [x]) = Some x.
Proof. unfold at_last. now rewrite rev_app_distr. Qed.

Lemma at_last_texts (where_ where' : list Where) :
  map compiled_text (map Some where_) = map compiled_text (map Some where') ->
  compiled_text (at_last where_) = compiled_text (at_last where').
Proof.
  rewrite !map_map. intros H.
  apply (f_equal (@rev _)) in H. rewrite <- !map_rev in H.
  unfold at_last.
  destruct (rev where_) as [|a l], (rev where') as [|a' l'];
    try discriminate H; [reflexivity|].
  cbn [map] in H. now inversion H.
Qed.

Lemma padded_texts (updates : list Rec) (where_ where' : list Where) :
  map compiled_text (map Some where_) = map compiled_text (map Some where') ->
  map compiled_text (padded updates where_)
  = map compiled_text (padded updates where').
Proof.
  intros H.
  assert (Hlen : List.length where_ = List.length where').
  { apply (f_equal (@List.length _)) in H. now rewrite !length_map in H. }
  unfold padded. rewrite Hlen.
  destruct (0 <? Z.of_nat (List.length updates) - Z.of_nat (List.length where'))%Z.
  - rewrite !map_app, !map_repeat, H. now rewrite (at_last_texts _ _ H).
  - exact H.
Qed.

(** C2, amended: when [createUpdateQuery] returns, the keys of each row are
    the assignments of its payload, its values are exactly the values of the
    payload in the same key order, and of its condition the row has the
    compiled text and nothing else: conditions that compile to the same texts
    give the same compiled update, whatever values they bind. *)
Theorem update_rows_carry_payload_values (updates : list Rec) (where_ : list Where) :
  (forall q : MySqlUpdateQueryParams.t,
      fst (createUpdateQuery updates where_) = Ok q ->
      map MySqlUpdateRow.keys (MySqlUpdateQueryParams.updates q)
      = map (fun u => map (fun key => key ++ " = ?") (Object_keys u)) updates
      /\ map MySqlUpdateRow.values (MySqlUpdateQueryParams.updates q)
         = map Object_values updates
      /\ map (fun row => Ok (MySqlUpdateRow.where_ row))
           (MySqlUpdateQueryParams.updates q)
         = map compiled_text
             (firstn (List.length updates) (padded updates where_)))
  /\ (forall where' : list Where,
         map compiled_text (map Some where_)
         = map compiled_text (map Some where') ->
         fst (createUpdateQuery updates where_)
         = fst (createUpdateQuery updates where')).
Proof.
  split.
  - intros q H. rewrite createUpdateQuery_rows in H.
    destruct (rows_from updates (padded updates where_)) as [rows|e] eqn:Hrows;
      cbn [rbind] in H; [|discriminate].
    inversion H; subst q; clear H.
    cbn [MySqlUpdateQueryParams.updates].
    exact (rows_from_payloads _ _ _ Hrows).
  - intros where' H. rewrite !createUpdateQuery_rows.
    now rewrite (rows_from_texts updates _ _ (padded_texts updates _ _ H)).
Qed.

Lemma update_rows_carry_payload_values_witness :
  fst (createUpdateQuery [rename_ann] [by_id 1])
  = Ok {| MySqlUpdateQueryParams.updates := [rename_ann_row] |}
  /\ map MySqlUpdateRow.values [rename_ann_row] = map Object_values [rename_ann]
  /\ fst (createUpdateQuery [rename_ann] [by_id 1])
     = fst (createUpdateQuery [rename_ann] [by_id 2]).
Proof.
  split; [reflexivity|]. split.
  - exact (proj1 (proj2 (proj1
             (update_rows_carry_payload_values [rename_ann] [by_id 1])
             {| MySqlUpdateQueryParams.updates := [rename_ann_row] |}
             eq_refl))).
  - exact (proj2 (update_rows_carry_payload_values [rename_ann] [by_id 1])
             [by_id 2] eq_refl).
Defined.

(** C2, as stated, fails: two conditions binding different values compile to
    the same update, so the bound values of the condition are not kept next
    to the where text; and the statement [updateOne] runs for the row has two
    placeholders while one value is bound. *)
Lemma update_condition_values_not_kept :
  parse (result (by_id 1)) = Ok {| query := "id = ?"; values := [JInt 1] |}
  /\ parse (result (by_id 2)) = Ok {| query := "id = ?"; values := [JInt 2] |}
  /\ fst (createUpdateQuery [rename_ann] [by_id 1])
     = Ok {| MySqlUpdateQueryParams.updates := [rename_ann_row] |}
  /\ fst (createUpdateQuery [rename_ann] [by_id 2])
     = Ok {| MySqlUpdateQueryParams.updates := [rename_ann_row] |}
  /\ MySqlCollection.updateOne dead_pool "users" rename_ann_row []
     = (Ok {| status := Failure; modifiedCount := None |},
        [CallQuery "UPDATE users SET name = ? id = ?" (Some [JStr "Ann"])])
  /\ count_placeholders (MySqlCollection.update_sql "users" rename_ann_row) = 2
  /\ List.length (MySqlUpdateRow.values rename_ann_row) = 1.
Proof. repeat split. Qed.

Lemma rows_from_ok (updates : list Rec) :
  forall where_ : list (option Where),
    List.length updates <= List.length where_ ->
    Forall (fun entry => exists text, compiled_text entry = Ok text) where_ ->
    exists rows,
      rows_from updates where_ = Ok rows
      /\ List.length rows = List.length updates.
Proof.
  induction updates as [|u rest IH]; intros W Hlen Hall.
  - exists []. split; reflexivity.
  - destruct Hall as [|entry W [text Htext] Hrest]; cbn [List.length] in Hlen;
      [lia|].
    destruct (IH W ltac:(lia) Hrest) as [others [Hothers Hn]].
    exists (update_row u text :: others).
    cbn [rows_from hd tl]. rewrite Htext, Hothers. cbn [rbind List.length].
    split; [reflexivity | now rewrite Hn].
Qed.

(** C8, amended: with at least one condition supplied and more payloads than
    conditions, the call compiles as if the last supplied condition had been
    given once more for each excess payload; when the supplied conditions
    compile it returns one row per payload, and every row beyond the supplied
    conditions has the text of the last supplied condition. *)
Theorem update_reuses_last_condition
    (updates : list Rec) (where_ : list Where) (last_where : Where) :
  at_last where_ = Some last_where ->
  List.length where_ < List.length updates ->
  Forall (fun w => exists fragment, parse (result w) = Ok fragment) where_ ->
  fst (createUpdateQuery updates where_)
  = fst (createUpdateQuery updates
           (where_ ++ repeat last_where
                        (List.length updates - List.length where_)))
  /\ exists (q : MySqlUpdateQueryParams.t) (last_fragment : Fragment),
      fst (createUpdateQuery updates where_) = Ok q
      /\ parse (result last_where) = Ok last_fragment
      /\ List.length (MySqlUpdateQueryParams.updates q) = List.length updates
      /\ forall (i : nat) (row : MySqlUpdateRow.t),
          List.length where_ <= i ->
          nth_error (MySqlUpdateQueryParams.updates q) i = Some row ->
          MySqlUpdateRow.where_ row = query last_fragment.
Proof.
  intros Hlast Hlen Hall.
  assert (Hpad : padded updates where_
                 = (map Some where_
                      ++ repeat (Some last_where)
                           (List.length updates - List.length where_))%list).
  { rewrite padded_excess by exact Hlen. now rewrite Hlast. }
  assert (Hin : In last_where where_).
  { unfold at_last in Hlast. apply in_rev.
    destruct (rev where_) as [|x l]; [discriminate|].
    inversion Hlast. now left. }
  destruct (proj1 (Forall_forall _ _) Hall _ Hin) as [last_fragment Hfrag].
  split.
  - rewrite !createUpdateQuery_rows, Hpad.
    rewrite padded_no_excess by (rewrite length_app, repeat_length; lia).
    now rewrite map_app, map_repeat.
  - assert (Hentries :
              Forall (fun entry => exists text, compiled_text entry = Ok text)
                (padded updates where_)).
    { rewrite Hpad. apply Forall_app. split.
      - apply Forall_map.
        apply (Forall_impl _ (P := fun w => exists fragment,
                                     parse (result w) = Ok fragment));
          [|exact Hall].
        intros w [fragment Hw]. exists (query fragment).
        cbn [compiled_text]. now rewrite Hw.
      - apply Forall_forall. intros entry Hentry.
        apply repeat_spec in Hentry. subst entry.
        exists (query last_fragment). cbn [compiled_text]. now rewrite Hfrag. }
    destruct (rows_from_ok updates _ (padded_length updates where_) Hentries)
      as [rows [Hrows Hn]].
    exists {| MySqlUpdateQueryParams.updates := rows |}, last_fragment.
    split; [rewrite createUpdateQuery_rows, Hrows; reflexivity|].
    split; [exact Hfrag|].
    split; [exact Hn|].
    cbn [MySqlUpdateQueryParams.updates]. intros i row Hi Hrow.
    destruct (rows_from_payloads _ _ _ Hrows) as [_ [_ Htexts]].
    apply (f_equal (fun l => nth_error l i)) in Htexts.
    rewrite !nth_error_map, Hrow, nth_error_firstn in Htexts.
    assert (Hi' : i < List.length updates).
    { rewrite <- Hn. apply nth_error_Some. now rewrite Hrow. }
    apply Nat.ltb_lt in Hi'. rewrite Hi' in Htexts. apply Nat.ltb_lt in Hi'.
    rewrite Hpad, nth_error_app2 in Htexts by (rewrite length_map; lia).
    rewrite length_map, nth_error_repeat in Htexts by lia.
    cbn [option_map compiled_text] in Htexts. rewrite Hfrag in Htexts.
    cbn [rbind] in Htexts. now inversion Htexts.
Qed.

Lemma update_reuses_last_condition_witness :
  exists (q : MySqlUpdateQueryParams.t) (last_fragment : Fragment),
    fst (createUpdateQuery three_payloads [by_id 7]) = Ok q
    /\ parse (result (by_id 7)) = Ok last_fragment
    /\ List.length (MySqlUpdateQueryParams.updates q)
       = List.length three_payloads
    /\ forall (i : nat) (row : MySqlUpdateRow.t),
        List.length [by_id 7] <= i ->
        nth_error (MySqlUpdateQueryParams.updates q) i = Some row ->
        MySqlUpdateRow.where_ row = query last_fragment.
Proof.
  refine (proj2 (update_reuses_last_condition three_payloads [by_id 7] (by_id 7)
                   eq_refl _ _)).
  - cbn. lia.
  - repeat constructor. eexists. reflexivity.
Defined.

(** C8, as stated, fails when no condition is supplied: one payload and an
    empty array of conditions make the compilation throw. *)
Lemma update_without_conditions_throws :
  List.length (@nil Where) < List.length [rename_ann]
  /\ fst (createUpdateQuery [rename_ann] [])
     = Throw (TypeError "Cannot read properties of undefined (reading 'result')").
Proof. split; [cbn; lia | reflexivity]. Qed.

Lemma update_at_ext (A : Type) (f g : A -> A) (i : nat) (l : list A) :
  (forall x, f x = g x) -> update_at i f l = update_at i g l.
Proof.
  intros H. revert i.
  induction l as [|x rest IH]; intros [|i]; cbn [update_at];
    try reflexivity; [now rewrite H | now rewrite IH].
Qed.

Lemma update_at_same (A : Type) (i : nat) (l : list A) :
  update_at i (fun x => x) l = l.
Proof.
  revert i.
  induction l as [|x rest IH]; intros [|i]; cbn [update_at];
    try reflexivity. now rewrite IH.
Qed.

Lemma update_at_twice (A : Type) (f g : A -> A) (i : nat) (l : list A) :
  update_at i g (update_at i f l) = update_at i (fun x => g (f x)) l.
Proof.
  revert i.
  induction l as [|x rest IH]; intros [|i]; cbn [update_at];
    try reflexivity. now rewrite IH.
Qed.

Lemma nth_error_update_at (A : Type) (f : A -> A) (i j : nat) (l : list A) :
  nth_error (update_at i f l) j
  = if Nat.eqb i j then option_map f (nth_error l j) else nth_error l j.
Proof.
  revert i j.
  induction l as [|x rest IH]; intros [|i] [|j]; cbn;
    try reflexivity; try apply IH.
  now destruct (Nat.eqb i j).
Qed.

Lemma nth_error_nth_default (A : Type) (l : list A) (i : nat) (x d : A) :
  nth_error l i = Some x -> nth i l d = x.
Proof.
  revert i. induction l as [|y rest IH]; intros [|i] H; cbn in *;
    try discriminate; [now inversion H | now apply IH].
Qed.

(** The loop of pushes adds its entry [diff] times at the end of the array
    it is given, and touches nothing else. *)
Lemma push_loop_world (diff where_ref : nat) (lastWhere : option Where)
    (w : World) :
  MySqlQueryFactoryInWorld.push_loop diff where_ref lastWhere w
  = (Ok tt,
     {| where_arrays :=
          update_at where_ref
            (fun array => (array ++ repeat lastWhere diff)%list)
            (where_arrays w);
        payload_arrays := payload_arrays w;
        calls := calls w |}).
Proof.
  revert w. induction diff as [|diff IH]; intros w.
  - cbn [MySqlQueryFactoryInWorld.push_loop repeat]. unfold eff_ret.
    rewrite (update_at_ext _ _ (fun x => x)) by (intros; apply app_nil_r).
    rewrite update_at_same. now destruct w.
  - cbn [MySqlQueryFactoryInWorld.push_loop]. unfold eff_bind, push_where.
    rewrite IH. cbn [where_arrays payload_arrays calls].
    rewrite update_at_twice. f_equal. f_equal.
    apply update_at_ext. intros array. now rewrite <- app_assoc.
Qed.

(** The [forEach] changes nothing in the world, and compiles the rows as
    [MySqlQueryFactory.forEach_update] does from the contents of the array. *)
Lemma forEach_update_world (updates : list Rec) (where_ref : nat) :
  forall (i : nat) (rows : list MySqlUpdateRow.t) (w : World),
    MySqlQueryFactoryInWorld.forEach_update updates i where_ref rows w
    = (forEach_update updates i (nth where_ref (where_arrays w) []) rows, w).
Proof.
  induction updates as [|u rest IH]; intros i rows w; [reflexivity|].
  cbn [MySqlQueryFactoryInWorld.forEach_update forEach_update].
  unfold eff_bind, read_where_array, eff_lift.
  destruct (nth_error (nth where_ref (where_arrays w) []) i) as [[entry|]|];
    cbn [rbind]; try reflexivity.
  destruct (parse (result entry)) as [parsed|e]; cbn [rbind];
    [apply IH | reflexivity].
Qed.

(** What [createUpdateQuery] returns and the world it leaves, in terms of
    the two arrays it was given. *)
Lemma createUpdateQuery_world (updates_ref where_ref : nat) (w : World)
    (updates : list Rec) (where_ : list (option Where)) :
  nth_error (payload_arrays w) updates_ref = Some updates ->
  nth_error (where_arrays w) where_ref = Some where_ ->
  snd (MySqlQueryFactoryInWorld.createUpdateQuery updates_ref where_ref w)
  = {| where_arrays :=
         update_at where_ref
           (fun array =>
              (array
                 ++ repeat (MySqlQueryFactoryInWorld.last_entry where_)
                      (List.length updates - List.length where_))%list)
           (where_arrays w);
       payload_arrays := payload_arrays w;
       calls := calls w |}.
Proof.
  intros Hupdates Hwhere.
  unfold MySqlQueryFactoryInWorld.createUpdateQuery, eff_bind,
    read_payload_array, read_where_array, eff_ret.
  rewrite (nth_error_nth_default _ _ _ _ [] Hupdates),
    (nth_error_nth_default _ _ _ _ [] Hwhere).
  destruct (Z.ltb_spec 0
              (Z.of_nat (List.length updates) - Z.of_nat (List.length where_)))
    as [Hexcess | Henough].
  - rewrite push_loop_world, forEach_update_world.
    replace (Z.to_nat
               (Z.of_nat (List.length updates) - Z.of_nat (List.length where_)))
      with (List.length updates - List.length where_) by lia.
    destruct (forEach_update _ _ _ _); reflexivity.
  - rewrite forEach_update_world.
    replace (List.length updates - List.length where_) with 0 by lia.
    cbn [repeat].
    rewrite (update_at_ext _ _ (fun x => x)) by (intros; apply app_nil_r).
    rewrite update_at_same.
    destruct (forEach_update _ _ _ _); now destruct w.
Qed.

(** In a world whose array holds the conditions a caller supplied, the
    method returns what [MySqlQueryFactory.createUpdateQuery] returns. *)
Lemma createUpdateQuery_world_result (updates_ref where_ref : nat) (w : World)
    (updates : list Rec) (supplied : list Where) :
  nth_error (payload_arrays w) updates_ref = Some updates ->
  nth_error (where_arrays w) where_ref = Some (map Some supplied) ->
  fst (MySqlQueryFactoryInWorld.createUpdateQuery updates_ref where_ref w)
  = fst (createUpdateQuery updates supplied)
  /\ nth_error
       (where_arrays
          (snd (MySqlQueryFactoryInWorld.createUpdateQuery
                  updates_ref where_ref w))) where_ref
     = Some (snd (createUpdateQuery updates supplied)).
Proof.
  intros Hupdates Hwhere. split.
  - unfold MySqlQueryFactoryInWorld.createUpdateQuery, eff_bind,
      read_payload_array, read_where_array, eff_ret.
    rewrite (nth_error_nth_default _ _ _ _ [] Hupdates),
      (nth_error_nth_default _ _ _ _ [] Hwhere).
    unfold createUpdateQuery, padded. cbn [fst]. rewrite length_map.
    destruct (0 <? Z.of_nat (List.length updates)
                   - Z.of_nat (List.length supplied))%Z.
    + rewrite push_loop_world, forEach_update_world.
      cbn [where_arrays].
      assert (Hnth : nth where_ref
                       (update_at where_ref
                          (fun array =>
                             (array
                                ++ repeat
                                     (MySqlQueryFactoryInWorld.last_entry
                                        (map Some supplied))
                                     (Z.to_nat
                                        (Z.of_nat (List.length updates)
                                         - Z.of_nat (List.length supplied))))%list)
                          (where_arrays w)) []
                     = (map Some supplied
                          ++ repeat (at_last supplied)
                               (Z.to_nat
                                  (Z.of_nat (List.length updates)
                                   - Z.of_nat (List.length supplied))))%list).
      { apply nth_error_nth_default.
        rewrite nth_error_update_at, Nat.eqb_refl, Hwhere. cbn [option_map].
        do 3 f_equal. unfold MySqlQueryFactoryInWorld.last_entry, at_last.
        rewrite <- map_rev. now destruct (rev supplied). }
      rewrite Hnth. destruct (forEach_update _ _ _ _); reflexivity.
    + rewrite forEach_update_world.
      rewrite (nth_error_nth_default _ _ _ _ [] Hwhere).
      destruct (forEach_update _ _ _ _); reflexivity.
  - rewrite (createUpdateQuery_world _ _ _ _ _ Hupdates Hwhere).
    cbn [where_arrays snd createUpdateQuery].
    rewrite nth_error_update_at, Nat.eqb_refl, Hwhere. cbn [option_map].
    unfold padded. rewrite length_map.
    destruct (Z.ltb_spec 0
                (Z.of_nat (List.length updates)
                 - Z.of_nat (List.length supplied))) as [Hexcess | Henough].
    + do 3 f_equal.
      * unfold MySqlQueryFactoryInWorld.last_entry, at_last.
        rewrite <- map_rev. now destruct (rev supplied).
      * lia.
    + replace (List.length updates - List.length supplied) with 0 by lia.
      cbn [repeat]. now rewrite app_nil_r.
Qed.

(** C10, amended: every compile method of the factory performs no I/O and
    leaves its arguments unmodified, but for one effect of
    [createUpdateQuery]: when it is given more payloads than conditions, it
    appends to the caller's array of conditions one copy of the last element
    of that array ([undefined] when the array is empty) for each payload in
    excess.  It makes no call on the pool, leaves the payloads and every other
    array as they were, and with at least as many conditions as payloads
    leaves the whole world, that array included, as it was. *)
Theorem factory_methods_effects :
  (forall params w,
      snd (MySqlQueryFactoryInWorld.createFindQuery params w) = w)
  /\ (forall params w,
         snd (MySqlQueryFactoryInWorld.createCountQuery params w) = w)
  /\ (forall params w,
         snd (MySqlQueryFactoryInWorld.createRemoveQuery params w) = w)
  /\ (forall params w,
         snd (MySqlQueryFactoryInWorld.createAggregationQuery params w) = w)
  /\ (forall (updates_ref where_ref : nat) (w : World)
             (updates : list Rec) (where_ : list (option Where)),
         nth_error (payload_arrays w) updates_ref = Some updates ->
         nth_error (where_arrays w) where_ref = Some where_ ->
         let after :=
           snd (MySqlQueryFactoryInWorld.createUpdateQuery
                  updates_ref where_ref w) in
         calls after = calls w
         /\ payload_arrays after = payload_arrays w
         /\ (forall other : nat,
                other <> where_ref ->
                nth_error (where_arrays after) other
                = nth_error (where_arrays w) other)
         /\ nth_error (where_arrays after) where_ref
            = Some (where_
                      ++ repeat (MySqlQueryFactoryInWorld.last_entry where_)
                           (List.length updates - List.length where_))%list
         /\ (List.length updates <= List.length where_ -> after = w)).
Proof.
  split; [reflexivity|]. split; [reflexivity|]. split; [reflexivity|].
  split; [reflexivity|].
  intros updates_ref where_ref w updates where_ Hupdates Hwhere after.
  subst after. rewrite (createUpdateQuery_world _ _ _ _ _ Hupdates Hwhere).
  cbn [where_arrays payload_arrays calls].
  split; [reflexivity|]. split; [reflexivity|]. split; [|split].
  - intros other Hother. rewrite nth_error_update_at.
    destruct (Nat.eqb_spec where_ref other); [congruence | reflexivity].
  - now rewrite nth_error_update_at, Nat.eqb_refl, Hwhere.
  - intros Henough.
    replace (List.length updates - List.length where_) with 0 by lia.
    cbn [repeat].
    rewrite (update_at_ext _ _ (fun x => x)) by (intros; apply app_nil_r).
    rewrite update_at_same. now destruct w.
Qed.

Lemma factory_methods_effects_witness :
  calls
    (snd (MySqlQueryFactoryInWorld.createUpdateQuery 0 0 caller_world))
  = calls caller_world
  /\ payload_arrays
       (snd (MySqlQueryFactoryInWorld.createUpdateQuery 0 0 caller_world))
     = payload_arrays caller_world
  /\ nth_error
       (where_arrays
          (snd (MySqlQueryFactoryInWorld.createUpdateQuery 0 0 caller_world)))
       0
     = Some [Some (by_id 7); Some (by_id 7); Some (by_id 7)].
Proof.
  destruct factory_methods_effects as [_ [_ [_ [_ Hupdate]]]].
  destruct (Hupdate 0 0 caller_world three_payloads [Some (by_id 7)]
              eq_refl eq_refl) as [Hcalls [Hpayloads [_ [Hwhere _]]]].
  split; [exact Hcalls|]. split; [exact Hpayloads | exact Hwhere].
Defined.

(** In the same world an operation of the collection does add its calls. *)
Lemma perform_records_calls (A : Type) (operation : IO A) (w : World) :
  calls (snd (perform operation w)) = snd (operation (calls w))
  /\ where_arrays (snd (perform operation w)) = where_arrays w
  /\ payload_arrays (snd (perform operation w)) = payload_arrays w.
Proof.
  unfold perform. destruct (operation (calls w)) as [r h]. repeat split.
Qed.

(** C10, as stated, fails: after compiling three payloads against one
    condition, the caller's array holds three conditions. *)
Lemma createUpdateQuery_mutates_conditions :
  snd (createUpdateQuery three_payloads [by_id 7])
  = [Some (by_id 7); Some (by_id 7); Some (by_id 7)]
  /\ snd (createUpdateQuery three_payloads [by_id 7]) <> map Some [by_id 7]
  /\ where_arrays caller_world = [[Some (by_id 7)]]
  /\ where_arrays
       (snd (MySqlQueryFactoryInWorld.createUpdateQuery 0 0 caller_world))
     = [[Some (by_id 7); Some (by_id 7); Some (by_id 7)]].
Proof.
  split; [reflexivity|]. split; [discriminate|]. split; reflexivity.
Qed.

End UpdateClaims.

(** ** The query factory: find, count and remove *)

Section FactoryDefaults.

Import MySqlWhereParser MySqlQueryFactory.

(** The limit fragment [createFindQuery] computes, whatever the condition
    and the sort are. *)
Lemma createFindQuery_limit (params : FindParams.t) (q : MySqlFindQueryParams.t) :
  createFindQuery params = Ok q ->
  MySqlFindQueryParams.limit q
  = if Number_isFinite (FindParams.limit params)
       && Number_isFinite (FindParams.offset params)
    then Some ("LIMIT " ++ show_optional (FindParams.offset params)
                 ++ ", " ++ show_optional (FindParams.limit params))
    else if truthy_number (FindParams.limit params)
    then Some ("LIMIT " ++ show_optional (FindParams.limit params))
    else None.
Proof.
  unfold createFindQuery. intros H.
  destruct (FindParams.where_ params) as [w|].
  - destruct (parse (result w)) as [parsed|e]; cbn [rbind] in H;
      [|discriminate].
    now inversion H.
  - cbn [rbind] in H. now inversion H.
Qed.

(** C7, on the code: a limit of 0 given alone yields no limit fragment (the
    second test is on the truthiness of the limit), while the same limit with
    an offset is emitted, and a limit that is not finite passes the second
    test; a non-zero limit alone, both together, and an offset alone behave
    as stated. *)
Theorem createFindQuery_limit_zero_alone :
  createFindQuery (find_params (Some (Finite 0)) None) = Ok (limit_only None)
  /\ createFindQuery (find_params (Some (Finite 0)) (Some (Finite 5)))
     = Ok (limit_only (Some "LIMIT 5, 0"))
  /\ createFindQuery (find_params (Some (Finite 10)) None)
     = Ok (limit_only (Some "LIMIT 10"))
  /\ createFindQuery (find_params (Some (Finite 10)) (Some (Finite 5)))
     = Ok (limit_only (Some "LIMIT 5, 10"))
  /\ createFindQuery (find_params None (Some (Finite 5)))
     = Ok (limit_only None)
  /\ createFindQuery (find_params (Some Infinity) None)
     = Ok (limit_only (Some "LIMIT Infinity")).
Proof. repeat split. Qed.

(** [createCountQuery] emits a where fragment whenever it returns. *)
Lemma createCountQuery_emits_where (params : CountParams.t) (q : MySqlCountQueryParams.t) :
  createCountQuery params = Ok q ->
  exists text, MySqlCountQueryParams.where_ q = Some ("WHERE " ++ text).
Proof.
  unfold createCountQuery. intros H.
  destruct (CountParams.where_ params) as [w|].
  - destruct (parse (result w)) as [parsed|e]; cbn [rbind] in H;
      [|discriminate].
    inversion H. now exists (query parsed).
  - cbn [rbind] in H. inversion H. now exists EmptyString.
Qed.

(** C3, on the code: without a [where], [createCountQuery] yields the keyword
    followed by no predicate, and the statement [count] runs for it ends
    with that keyword; the neutral-true predicate is what a [Where] without
    result compiles to. *)
Theorem createCountQuery_without_where :
  createCountQuery {| CountParams.where_ := None |}
  = Ok {| MySqlCountQueryParams.where_ := Some "WHERE " |}
  /\ createCountQuery {| CountParams.where_ := Some {| result := None |} |}
     = Ok {| MySqlCountQueryParams.where_ := Some "WHERE 1=1" |}
  /\ snd (MySqlCollection.count live_pool "users"
            (Some (Structured {| MySqlCountQueryParams.where_ := Some "WHERE " |}))
            [])
     = [CallQuery "SELECT COUNT(*) AS count FROM users WHERE " None].
Proof. repeat split. Qed.

(** C6, on the code: without a [where], [createRemoveQuery] reads [result]
    on [undefined] and throws; the empty text is what it returns for a
    [Where] without result. *)
Theorem createRemoveQuery_without_where :
  createRemoveQuery {| RemoveParams.where_ := None |}
  = Throw (TypeError "Cannot read properties of undefined (reading 'result')")
  /\ createRemoveQuery {| RemoveParams.where_ := Some {| result := None |} |}
     = Ok {| MySqlDeleteQueryParams.where_ := EmptyString |}
  /\ createCountQuery {| CountParams.where_ := Some {| result := None |} |}
     = Ok {| MySqlCountQueryParams.where_ := Some "WHERE 1=1" |}.
Proof. repeat split. Qed.

End FactoryDefaults.

(** ** The collection *)

Section CollectionClaims.

Import MySqlCollection.

(** C4, on the code: given records, [insert] reads the keys of [query[0]],
    which is [undefined]; it raises before any statement is built, on every
    pool and for every sequence of records. *)
Theorem insert_records_raises :
  insert live_pool "users" (Structured two_users) []
  = (Throw (CollectionError
              (TypeError "Cannot convert undefined or null to object")),
     [])
  /\ forall (pool : Pool.t) (collectionName : string)
        (query : MySqlInsertQueryParams.t) (h : list Call),
      insert pool collectionName (Structured query) h
      = (Throw (CollectionError
                  (TypeError "Cannot convert undefined or null to object")),
         h).
Proof. split; reflexivity. Qed.

Section DriverFailure.

Variable pool : Pool.t.
Variable collectionName : string.

Lemma one_query_raises (A : Type) (sql : string)
    (vals : option (list JsValue)) (k : QueryResult -> IO A) :
  (forall res h, snd (k res h) = h) ->
  rejection_raises pool (try_catch (io_bind (pool_query pool sql vals) k) rethrow).
Proof.
  intros Hk h. exists sql, vals.
  unfold try_catch, io_bind, pool_query, rethrow, io_throw.
  destruct (Pool.query pool h sql vals) as [res|e'] eqn:Hq.
  - split; [|discriminate].
    specialize (Hk res (h ++ [CallQuery sql vals])%list).
    destruct (k res _) as [[a|e''] h']; cbn [snd] in *; now subst.
  - split; [reflexivity|]. intros e He. now inversion He.
Qed.

Lemma Promise_all_rejected (A : Type) (settled : list (Result A)) :
  (exists e, In (Throw e) settled) -> exists e, Promise_all settled = Throw e.
Proof.
  intros [e Hin].
  induction settled as [|[a|e'] rest IH]; [contradiction| |].
  - destruct Hin as [Heq|Hin]; [discriminate|].
    destruct (IH Hin) as [e'' He'']. exists e''.
    cbn [Promise_all]. now rewrite He''.
  - exists e'. reflexivity.
Qed.

Lemma Promise_all_fulfilled (A : Type) (settled : list (Result A))
    (results : list A) (e : JsError) :
  Promise_all settled = Ok results -> ~ In (Throw e) settled.
Proof.
  intros Hok Hin.
  destruct (Promise_all_rejected A settled (ex_intro _ e Hin)) as [e' He'].
  congruence.
Qed.

(** A rejected call of the transaction leads [updateMany] to its [catch]:
    it issues the rollback, and its outcome is decided by that rollback. *)
Lemma updateMany_rolls_back (updates : list MySqlUpdateRow.t) (h : list Call) :
  transaction_rejected pool collectionName updates h ->
  exists h',
    snd (updateMany pool collectionName updates h)
    = (h' ++ [CallRollback])%list
    /\ fst (updateMany pool collectionName updates h)
       = match Pool.rollback pool h' with
         | Ok _ => Ok {| status := Failure; modifiedCount := None |}
         | Throw e => Throw e
         end.
Proof.
  unfold transaction_rejected. intros Hrejected.
  unfold updateMany, try_catch, io_bind, pool_beginTransaction, pool_commit,
    pool_rollback, io_ret.
  destruct (Pool.beginTransaction pool h) as [[]|e0] eqn:Hbegin.
  - destruct (issue_all pool collectionName updates
                (h ++ [CallBeginTransaction])%list) as [settled h'] eqn:Hissue.
    cbn [fst snd] in Hrejected.
    destruct (Promise_all settled) as [results|e1] eqn:Hall.
    + destruct (Pool.commit pool h') as [[]|e2] eqn:Hcommit.
      * exfalso.
        destruct Hrejected as [[e H] | [[e H] | [e H]]];
          [discriminate H | | discriminate H].
        exact (Promise_all_fulfilled _ _ _ e Hall H).
      * exists (h' ++ [CallCommit])%list.
        destruct (Pool.rollback pool _) as [[]|e3]; split; reflexivity.
    + exists h'.
      destruct (Pool.rollback pool _) as [[]|e3]; split; reflexivity.
  - exists (h ++ [CallBeginTransaction])%list.
    destruct (Pool.rollback pool _) as [[]|e3]; split; reflexivity.
Qed.

(** C5, amended: [find], [insert], [remove], [count], [aggregate] and the
    update given as a text raise a [CollectionError] when the pool rejects
    their statement.  Both structured update paths capture the failure
    instead: the single-row one resolves with the [Failure] status when its
    statement is rejected, without a rollback; the multi-row one, when a call
    of its transaction is rejected, issues a rollback, and then resolves with
    the [Failure] status if that rollback resolves and is rejected with the
    error of the rollback, as it is, if the rollback is rejected too. *)
Theorem driver_failure_outcomes :
  (forall query, rejection_raises pool (find pool collectionName query))
  /\ (forall text,
         rejection_raises pool (insert pool collectionName (Raw text)))
  /\ (forall query, rejection_raises pool (remove pool collectionName query))
  /\ (forall query, rejection_raises pool (count pool collectionName query))
  /\ (forall query, rejection_raises pool (aggregate pool collectionName query))
  /\ (forall text,
         rejection_raises pool (update pool collectionName (Raw text)))
  /\ (forall row h e,
         Pool.query pool h (update_sql collectionName row)
           (Some (MySqlUpdateRow.values row)) = Throw e ->
         update pool collectionName
           (Structured {| MySqlUpdateQueryParams.updates := [row] |}) h
         = (Ok {| status := Failure; modifiedCount := None |},
            (h ++ [CallQuery (update_sql collectionName row)
                     (Some (MySqlUpdateRow.values row))])%list))
  /\ (forall updates h,
         List.length updates <> 1 ->
         transaction_rejected pool collectionName updates h ->
         exists h',
           snd (update pool collectionName
                  (Structured {| MySqlUpdateQueryParams.updates := updates |})
                  h)
           = (h' ++ [CallRollback])%list
           /\ fst (update pool collectionName
                     (Structured
                        {| MySqlUpdateQueryParams.updates := updates |}) h)
              = match Pool.rollback pool h' with
                | Ok _ => Ok {| status := Failure; modifiedCount := None |}
                | Throw e => Throw e
                end).
Proof.
  split; [|split; [|split; [|split; [|split; [|split; [|split]]]]]].
  - intros query. apply one_query_raises. reflexivity.
  - intros text. apply one_query_raises. reflexivity.
  - intros query. apply one_query_raises. reflexivity.
  - intros query. apply one_query_raises. reflexivity.
  - intros query. apply one_query_raises. reflexivity.
  - intros text. apply one_query_raises. reflexivity.
  - intros row h e He. cbn [update MySqlUpdateQueryParams.updates].
    unfold updateOne, try_catch, io_bind, pool_query. now rewrite He.
  - intros updates h Hlen Hrejected.
    cbn [update MySqlUpdateQueryParams.updates].
    destruct updates as [|first [|second others]];
      [| cbn in Hlen; contradiction |];
      now apply updateMany_rolls_back.
Qed.

End DriverFailure.

Lemma driver_failure_outcomes_witness :
  fst (find dead_pool "users" None [])
  = Throw (CollectionError (DriverFailure "ECONNRESET"))
  /\ update dead_pool "users"
       (Structured {| MySqlUpdateQueryParams.updates := [rename_ann_row] |}) []
     = (Ok {| status := Failure; modifiedCount := None |},
        [CallQuery "UPDATE users SET name = ? id = ?" (Some [JStr "Ann"])])
  /\ (exists h',
         snd (update flaky_pool "users"
                (Structured {| MySqlUpdateQueryParams.updates :=
                                 [rename_ann_row; rename_ann_row] |}) [])
         = (h' ++ [CallRollback])%list
         /\ fst (update flaky_pool "users"
                   (Structured {| MySqlUpdateQueryParams.updates :=
                                    [rename_ann_row; rename_ann_row] |}) [])
            = Ok {| status := Failure; modifiedCount := None |})
  /\ (exists h',
         snd (update lost_pool "users"
                (Structured {| MySqlUpdateQueryParams.updates :=
                                 [rename_ann_row; rename_ann_row] |}) [])
         = (h' ++ [CallRollback])%list
         /\ fst (update lost_pool "users"
                   (Structured {| MySqlUpdateQueryParams.updates :=
                                    [rename_ann_row; rename_ann_row] |}) [])
            = Throw (DriverFailure "EPIPE")).
Proof.
  split; [|split; [|split]].
  - destruct (proj1 (driver_failure_outcomes dead_pool "users") None [])
      as [sql [vals [Hcall Hraise]]].
    apply Hraise. reflexivity.
  - destruct (driver_failure_outcomes dead_pool "users")
      as [_ [_ [_ [_ [_ [_ [Hone _]]]]]]].
    apply (Hone rename_ann_row [] (DriverFailure "ECONNRESET")). reflexivity.
  - destruct (driver_failure_outcomes flaky_pool "users")
      as [_ [_ [_ [_ [_ [_ [_ Hmany]]]]]]].
    apply (Hmany [rename_ann_row; rename_ann_row] []).
    + cbn. lia.
    + right. left. exists (DriverFailure "ECONNRESET").
      cbn. right. left. reflexivity.
  - destruct (driver_failure_outcomes lost_pool "users")
      as [_ [_ [_ [_ [_ [_ [_ Hmany]]]]]]].
    apply (Hmany [rename_ann_row; rename_ann_row] []).
    + cbn. lia.
    + left. exists (DriverFailure "ECONNRESET"). reflexivity.
Defined.

(** C5, as stated, fails: on a pool that rejects every statement, the update
    of a single row resolves with the [Failure] status; it does not raise,
    and it issues no rollback.  And on a pool that rejects the rollback too,
    the update of two rows does not resolve with the [Failure] status: it is
    rejected with the error of the rollback. *)
Lemma single_row_update_does_not_raise :
  update dead_pool "users"
    (Structured {| MySqlUpdateQueryParams.updates := [rename_ann_row] |}) []
  = (Ok {| status := Failure; modifiedCount := None |},
     [CallQuery "UPDATE users SET name = ? id = ?" (Some [JStr "Ann"])])
  /\ ~ raises (update dead_pool "users"
                 (Structured {| MySqlUpdateQueryParams.updates :=
                                  [rename_ann_row] |}) [])
  /\ update lost_pool "users"
       (Structured {| MySqlUpdateQueryParams.updates :=
                        [rename_ann_row; rename_ann_row] |}) []
     = (Throw (DriverFailure "EPIPE"), [CallBeginTransaction; CallRollback]).
Proof.
  split; [reflexivity|]. split; [|reflexivity].
  intros [cause H]. discriminate H.
Qed.

End CollectionClaims.

(** * Further properties of the code *)

(** ** The where parser: errors, placeholders and values *)

Section ParserBehaviour.

Import MySqlWhereParser.

Lemma first_error_nested (conditions : list WhereCondition) (operator : LogicalOperator) :
  first_error (NestedCondition conditions operator)
  = fold_right (fun c later =>
                  match first_error c with
                  | Some e => Some e
                  | None => later
                  end) None conditions.
Proof.
  cbn [first_error].
  induction conditions as [|c rest IH]; [reflexivity|].
  cbn [fold_right]. now rewrite IH.
Qed.

Lemma field_placeholders_nested (conditions : list WhereCondition) (operator : LogicalOperator) :
  field_placeholders (NestedCondition conditions operator)
  = list_sum (map field_placeholders conditions).
Proof.
  cbn [field_placeholders].
  induction conditions as [|c rest IH]; [reflexivity|].
  cbn [map list_sum fold_right]. now rewrite IH.
Qed.

Lemma blank_nested (conditions : list WhereCondition) (operator : LogicalOperator) :
  blank (NestedCondition conditions operator)
  = NestedCondition (map blank conditions) operator.
Proof. reflexivity. Qed.

(** The loop stops at the first child that fails, with the error of that
    child, and otherwise runs to its end. *)
Lemma nested_loop_first_error (conditions : list WhereCondition) :
  Forall (fun c =>
            match first_error c with
            | Some e => parseNode c = Throw e
            | None => exists fragment, parseNode c = Ok fragment
            end) conditions ->
  forall (sqlParts : list string) (vals : list JsValue),
    match fold_right (fun c later =>
                        match first_error c with
                        | Some e => Some e
                        | None => later
                        end) None conditions with
    | Some e => nested_loop parseNode conditions sqlParts vals = Throw e
    | None => exists acc, nested_loop parseNode conditions sqlParts vals = Ok acc
    end.
Proof.
  induction 1 as [|c rest Hc _ IH]; intros parts vals.
  - cbn. eexists. reflexivity.
  - cbn [fold_right nested_loop].
    destruct (first_error c) as [e|].
    + now rewrite Hc.
    + destruct Hc as [fragment Hc]. rewrite Hc. cbn [rbind]. apply IH.
Qed.

(** X1: [parse] fails exactly on the trees that hold a leaf with an operator
    outside the enumeration or an object that is neither leaf nor group, and
    the error it throws is that of the first such node in pre-order; on every
    other tree it returns a fragment. *)
Theorem parse_reports_first_error (c : WhereCondition) :
  match first_error c with
  | Some e => parse (Some c) = Throw e
  | None => exists fragment, parse (Some c) = Ok fragment
  end.
Proof.
  cbn [parse].
  induction c as [l o r | cs o IH | ] using WhereCondition_tree_ind.
  - cbn [first_error parseNode]. unfold parseSimpleCondition.
    destruct (supported o) eqn:Hop.
    + destruct (supported_operator_converts o Hop) as [token [Hconv _]].
      rewrite Hconv. eexists. reflexivity.
    + now rewrite (unsupported_operator_throws o Hop).
  - rewrite first_error_nested, parseNode_nested. unfold parseNestedCondition.
    pose proof (nested_loop_first_error cs IH [] []) as H.
    destruct (fold_right _ None cs) as [e|].
    + now rewrite H.
    + destruct H as [acc H]. rewrite H. eexists. reflexivity.
  - reflexivity.
Qed.

Lemma converted_token_has_no_placeholder (operator token : string) :
  convertOperatorToSql operator = Ok token -> count_placeholders token = 0.
Proof.
  intros H. destruct (supported operator) eqn:Hop.
  - destruct (supported_operator_converts operator Hop) as [t [Hconv Ht]].
    rewrite Hconv in H. now inversion H; subst.
  - rewrite (unsupported_operator_throws operator Hop) in H. discriminate.
Qed.

Lemma count_placeholders_parenthesized (text : string) :
  count_placeholders ("(" ++ text ++ ")") = count_placeholders text.
Proof. rewrite !count_placeholders_app. cbn. lia. Qed.

Lemma leaf_text_count (field token : string) :
  count_placeholders (field ++ " " ++ token ++ " ?")
  = count_placeholders field + count_placeholders token + 1.
Proof. rewrite !count_placeholders_app. cbn. lia. Qed.

Lemma nested_loop_counts (conditions : list WhereCondition) :
  Forall (fun c =>
            forall fragment,
              parseNode c = Ok fragment ->
              count_placeholders (query fragment)
              = leaves c + field_placeholders c
              /\ values fragment = leaf_values c) conditions ->
  forall (sqlParts : list string) (vals : list JsValue)
         (acc : list string * list JsValue),
    nested_loop parseNode conditions sqlParts vals = Ok acc ->
    exists added,
      fst acc = (sqlParts ++ added)%list
      /\ snd acc = (vals ++ flat_map leaf_values conditions)%list
      /\ list_sum (map count_placeholders added)
         = list_sum (map leaves conditions)
           + list_sum (map field_placeholders conditions).
Proof.
  induction 1 as [|c rest Hc _ IH]; intros parts vals acc Hloop.
  - cbn in Hloop. inversion Hloop. exists [].
    cbn. now rewrite !app_nil_r.
  - cbn [nested_loop] in Hloop.
    destruct (parseNode c) as [fragment|e] eqn:Hparse; cbn [rbind] in Hloop;
      [|discriminate].
    destruct (Hc fragment eq_refl) as [Hcount Hvalues].
    destruct (IH _ _ _ Hloop) as [added [Hparts [Hvals Hsum]]].
    exists (("(" ++ query fragment ++ ")")%string :: added).
    rewrite Hparts, Hvals, <- !app_assoc, Hvalues.
    split; [reflexivity|]. split; [reflexivity|].
    unfold list_sum in *. cbn [map fold_right].
    rewrite count_placeholders_parenthesized, Hcount, Hsum. lia.
Qed.

(** X2: whenever [parse] returns, the values of the fragment are the values
    of the leaves in pre-order, one per leaf, and the text has one
    placeholder per leaf plus the placeholder characters that occur in the
    fields: the two counts agree exactly when no field holds that character. *)
Theorem parse_counts_fields_too (c : WhereCondition) (fragment : Fragment) :
  parse (Some c) = Ok fragment ->
  values fragment = leaf_values c
  /\ List.length (values fragment) = leaves c
  /\ count_placeholders (query fragment) = leaves c + field_placeholders c.
Proof.
  cbn [parse]. intros H.
  enough (E : count_placeholders (query fragment)
              = leaves c + field_placeholders c
              /\ values fragment = leaf_values c).
  { destruct E as [Hcount Hvalues]. repeat split; try assumption.
    rewrite Hvalues. apply leaf_values_length. }
  revert fragment H.
  induction c as [l o r | cs o IH | ] using WhereCondition_tree_ind;
    intros fragment H.
  - cbn [parseNode] in H. unfold parseSimpleCondition in H.
    destruct (convertOperatorToSql o) as [token|e] eqn:Hconv;
      cbn [rbind] in H; [|discriminate].
    inversion H; subst fragment; clear H.
    cbn [query values leaves leaf_values field_placeholders].
    split; [|reflexivity].
    pose proof (leaf_text_count l token) as E.
    rewrite (converted_token_has_no_placeholder o token Hconv) in E.
    etransitivity; [exact E | lia].
  - rewrite parseNode_nested in H. unfold parseNestedCondition in H.
    destruct (nested_loop parseNode cs [] []) as [acc|e] eqn:Hloop;
      cbn [rbind] in H; [|discriminate].
    inversion H; subst fragment; clear H.
    destruct (nested_loop_counts cs IH _ _ _ Hloop)
      as [added [Hparts [Hvals Hsum]]].
    unfold nested_result. cbn [query values].
    rewrite Hparts, Hvals, leaves_nested, leaf_values_nested,
      field_placeholders_nested.
    cbn [List.app]. split; [|reflexivity].
    rewrite count_placeholders_join by apply joiner_has_no_placeholder.
    exact Hsum.
  - discriminate.
Qed.

Lemma parse_counts_fields_too_witness :
  parse (Some (Condition "what?" "eq" (JInt 1)))
  = Ok {| query := "what? = ?"; values := [JInt 1] |}
  /\ List.length [JInt 1] = 1
  /\ count_placeholders "what? = ?" = 1 + 1.
Proof.
  split; [reflexivity|].
  exact (proj2 (parse_counts_fields_too
                  (Condition "what?" "eq" (JInt 1))
                  {| query := "what? = ?"; values := [JInt 1] |} eq_refl)).
Defined.

Lemma nested_loop_blank (conditions : list WhereCondition) :
  Forall (fun c => text_of (parseNode (blank c)) = text_of (parseNode c))
    conditions ->
  forall (sqlParts : list string) (vals vals' : list JsValue),
    (try! acc <- nested_loop parseNode (map blank conditions) sqlParts vals';
     Ok (fst acc))
    = (try! acc <- nested_loop parseNode conditions sqlParts vals;
       Ok (fst acc)).
Proof.
  induction 1 as [|c rest Hc _ IH]; intros parts vals vals'; [reflexivity|].
  cbn [map nested_loop]. unfold text_of in Hc.
  destruct (parseNode (blank c)) as [blanked|e'], (parseNode c) as [parsed|e];
    cbn [rbind] in *; try discriminate Hc.
  - inversion Hc as [Htext]. rewrite Htext. apply IH.
  - now inversion Hc.
Qed.

(** X3: the text [parse] produces, and whether it fails and how, do not
    depend on the values of the leaves: a tree and the same tree with every
    value replaced by [null] compile to the same text or to the same error. *)
Theorem parse_text_ignores_values (c : WhereCondition) :
  text_of (parse (Some (blank c))) = text_of (parse (Some c)).
Proof.
  cbn [parse].
  induction c as [l o r | cs o IH | ] using WhereCondition_tree_ind.
  - cbn [blank parseNode]. unfold parseSimpleCondition.
    destruct (convertOperatorToSql o); reflexivity.
  - rewrite blank_nested, !parseNode_nested. unfold parseNestedCondition.
    pose proof (nested_loop_blank cs IH [] [] []) as H.
    unfold text_of.
    destruct (nested_loop parseNode (map blank cs) [] []) as [acc'|e'],
             (nested_loop parseNode cs [] []) as [acc|e];
      cbn [rbind] in *; try discriminate H.
    + inversion H as [Hfst]. unfold nested_result. cbn [query].
      now rewrite Hfst.
    + now inversion H.
  - reflexivity.
Qed.

(** X4: the joiner of a group with fewer than two children plays no part in
    its compilation; in particular a group without children compiles, for
    either joiner, to the empty text with no value. *)
Theorem small_group_ignores_joiner
    (conditions : list WhereCondition) (operator operator' : LogicalOperator) :
  List.length conditions <= 1 ->
  parse (Some (NestedCondition conditions operator))
  = parse (Some (NestedCondition conditions operator'))
  /\ (conditions = [] ->
      parse (Some (NestedCondition conditions operator))
      = Ok {| query := EmptyString; values := [] |}).
Proof.
  intros Hlen. cbn [parse]. rewrite !parseNode_nested.
  unfold parseNestedCondition.
  destruct conditions as [|c [|c2 rest]]; [| |cbn in Hlen; lia].
  - split; [reflexivity|]. intros _. reflexivity.
  - split; [|discriminate]. cbn [nested_loop].
    destruct (parseNode c) as [fragment|e]; reflexivity.
Qed.

Lemma small_group_ignores_joiner_witness :
  parse (Some (NestedCondition [Condition "age" "gt" (JInt 18)] and_))
  = parse (Some (NestedCondition [Condition "age" "gt" (JInt 18)] or_))
  /\ parse (Some (NestedCondition [] and_))
     = Ok {| query := EmptyString; values := [] |}.
Proof.
  split.
  - apply (small_group_ignores_joiner
             [Condition "age" "gt" (JInt 18)] and_ or_).
    cbn. lia.
  - apply (small_group_ignores_joiner [] and_ or_); [cbn; lia | reflexivity].
Defined.

End ParserBehaviour.

(** ** The query factory: errors, agreement of the fragments, rows *)

Section FactoryBehaviour.

Import MySqlWhereParser MySqlQueryFactory.

(** X5: [createFindQuery] throws only when a [where] is supplied whose
    condition does not compile, and then with the error of the parser; the
    sort, the limit and the offset never make it fail. *)
Theorem createFindQuery_fails_only_on_condition
    (params : FindParams.t) (e : JsError) :
  createFindQuery params = Throw e
  <-> exists w : Where,
        FindParams.where_ params = Some w /\ parse (result w) = Throw e.
Proof.
  unfold createFindQuery. split.
  - intros H. destruct (FindParams.where_ params) as [w|].
    + exists w. split; [reflexivity|].
      destruct (parse (result w)) as [parsed|e']; cbn [rbind] in H;
        [discriminate | now inversion H].
    + discriminate.
  - intros [w [Hw Hparse]]. now rewrite Hw, Hparse.
Qed.

(** X6: for one and the same [Where], [createFindQuery] and
    [createCountQuery] emit the same where fragment, the keyword followed by
    the text of the parser, or fail with the same error, and so does
    [createRemoveQuery] when the [Where] carries a condition; for a [Where]
    without condition the first two emit the neutral-true predicate and
    [createRemoveQuery] the empty text. *)
Theorem where_fragments_agree
    (w : Where) (limit offset : option JsNumber) (sort : option Rec) :
  (try! q <- createFindQuery
               {| FindParams.limit := limit; FindParams.offset := offset;
                  FindParams.sort := sort; FindParams.where_ := Some w |};
   Ok (MySqlFindQueryParams.where_ q))
  = (try! text <- text_of (parse (result w)); Ok (Some ("WHERE " ++ text)))
  /\ (try! q <- createCountQuery {| CountParams.where_ := Some w |};
      Ok (MySqlCountQueryParams.where_ q))
     = (try! text <- text_of (parse (result w)); Ok (Some ("WHERE " ++ text)))
  /\ (try! q <- createRemoveQuery {| RemoveParams.where_ := Some w |};
      Ok (Some (MySqlDeleteQueryParams.where_ q)))
     = match result w with
       | Some _ =>
           try! text <- text_of (parse (result w)); Ok (Some ("WHERE " ++ text))
       | None => Ok (Some EmptyString)
       end
  /\ (result w = None ->
      text_of (parse (result w)) = Ok "1=1").
Proof.
  unfold createFindQuery, createCountQuery, createRemoveQuery, text_of.
  cbn [FindParams.where_ CountParams.where_ RemoveParams.where_].
  destruct (result w) as [c|].
  - destruct (parse (Some c)) as [parsed|e]; repeat split; discriminate.
  - repeat split.
Qed.

Lemma rows_from_length (updates : list Rec) (where_ : list (option Where))
    (rows : list MySqlUpdateRow.t) :
  rows_from updates where_ = Ok rows ->
  List.length rows = List.length updates.
Proof.
  intros H. destruct (rows_from_payloads _ _ _ H) as [_ [Hvalues _]].
  apply (f_equal (@List.length _)) in Hvalues.
  now rewrite !length_map in Hvalues.
Qed.

(** X7: whenever [createUpdateQuery] returns, it returns exactly one row per
    payload, in the order of the payloads, however many conditions were
    supplied. *)
Theorem createUpdateQuery_one_row_per_payload
    (updates : list Rec) (where_ : list Where) (q : MySqlUpdateQueryParams.t) :
  fst (createUpdateQuery updates where_) = Ok q ->
  List.length (MySqlUpdateQueryParams.updates q) = List.length updates
  /\ map MySqlUpdateRow.values (MySqlUpdateQueryParams.updates q)
     = map Object_values updates.
Proof.
  intros H. rewrite createUpdateQuery_rows in H.
  destruct (rows_from updates (padded updates where_)) as [rows|e] eqn:Hrows;
    cbn [rbind] in H; [|discriminate].
  inversion H; subst q; clear H. cbn [MySqlUpdateQueryParams.updates].
  split; [exact (rows_from_length _ _ _ Hrows)|].
  exact (proj1 (proj2 (rows_from_payloads _ _ _ Hrows))).
Qed.

Lemma createUpdateQuery_one_row_per_payload_witness :
  List.length
    (MySqlUpdateQueryParams.updates
       {| MySqlUpdateQueryParams.updates :=
            [rename_ann_row; rename_ann_row] |})
  = List.length [rename_ann; rename_ann]
  /\ map MySqlUpdateRow.values [rename_ann_row; rename_ann_row]
     = map Object_values [rename_ann; rename_ann].
Proof.
  exact (createUpdateQuery_one_row_per_payload
           [rename_ann; rename_ann] [by_id 1; by_id 2; by_id 3]
           {| MySqlUpdateQueryParams.updates :=
                [rename_ann_row; rename_ann_row] |} eq_refl).
Defined.

Lemma rows_from_firstn (updates : list Rec) :
  forall where_ : list (option Where),
    rows_from updates (firstn (List.length updates) where_)
    = rows_from updates where_.
Proof.
  induction updates as [|u rest IH]; intros W; [reflexivity|].
  cbn [rows_from List.length]. destruct W as [|entry W]; [reflexivity|].
  cbn [firstn hd tl]. now rewrite IH.
Qed.

(** X8: conditions beyond the number of payloads play no part in
    [createUpdateQuery]: they are never compiled, so what they hold, even a
    condition that does not compile, changes neither the rows nor the error. *)
Theorem createUpdateQuery_ignores_surplus_conditions
    (updates : list Rec) (where_ : list Where) :
  fst (createUpdateQuery updates where_)
  = fst (createUpdateQuery updates (firstn (List.length updates) where_)).
Proof.
  rewrite !createUpdateQuery_rows.
  destruct (Nat.le_gt_cases (List.length updates) (List.length where_))
    as [Henough | Hfew].
  - rewrite (padded_no_excess updates where_ Henough).
    rewrite padded_no_excess by (rewrite length_firstn; lia).
    rewrite <- firstn_map.
    now rewrite rows_from_firstn.
  - now rewrite firstn_all2 by lia.
Qed.

(** X9: the select list of [createAggregationQuery] is the star exactly when
    none of the five selectors is given (each absent or empty). *)
Theorem aggregation_star_without_selectors (params : AggregationParams.t) :
  MySqlAggregateParams.pipeline (createAggregationQuery params) = "*"
  <-> given (AggregationParams.sum params) = false
      /\ given (AggregationParams.average params) = false
      /\ given (AggregationParams.min params) = false
      /\ given (AggregationParams.max params) = false
      /\ given (AggregationParams.count params) = false.
Proof.
  destruct params as [s a mi ma c w so g].
  unfold createAggregationQuery, selected, given.
  cbn [MySqlAggregateParams.pipeline AggregationParams.sum
         AggregationParams.average AggregationParams.min
         AggregationParams.max AggregationParams.count].
  destruct s as [s|]; [destruct (String.eqb s EmptyString)|];
    (destruct a as [a|]; [destruct (String.eqb a EmptyString)|]);
    (destruct mi as [mi|]; [destruct (String.eqb mi EmptyString)|]);
    (destruct ma as [ma|]; [destruct (String.eqb ma EmptyString)|]);
    (destruct c as [c|]; [destruct (String.eqb c EmptyString)|]);
    cbn; (split; [intros H | intros (H1 & H2 & H3 & H4 & H5)]);
    first [ discriminate | repeat split ].
Qed.

End FactoryBehaviour.

(** ** The collection: statements, transactions and outcomes *)

Section CollectionBehaviour.

Import MySqlWhereParser MySqlQueryFactory MySqlCollection.

Variable pool : Pool.t.
Variable collectionName : string.

(** Every statement of a batch is issued, in the order of the rows. *)
Lemma issue_all_calls (updates : list MySqlUpdateRow.t) (h : list Call) :
  snd (issue_all pool collectionName updates h)
  = (h ++ map (row_call collectionName) updates)%list
  /\ List.length (fst (issue_all pool collectionName updates h))
     = List.length updates.
Proof.
  revert h. induction updates as [|row rest IH]; intros h.
  - cbn. now rewrite app_nil_r.
  - cbn [issue_all]. unfold pool_query. cbn beta iota.
    destruct (IH (h ++ [CallQuery (update_sql collectionName row)
                          (Some (MySqlUpdateRow.values row))])%list)
      as [Hcalls Hlen].
    destruct (issue_all pool collectionName rest _) as [settled h'].
    cbn [fst snd map List.length] in *.
    split; [rewrite Hcalls, <- app_assoc; reflexivity | now rewrite Hlen].
Qed.

Lemma update_many_rows (updates : list MySqlUpdateRow.t) (h : list Call) :
  List.length updates <> 1 ->
  update pool collectionName
    (Structured {| MySqlUpdateQueryParams.updates := updates |}) h
  = updateMany pool collectionName updates h.
Proof.
  intros H. cbn [update MySqlUpdateQueryParams.updates].
  destruct updates as [|first [|second others]];
    [reflexivity | cbn in H; contradiction | reflexivity].
Qed.

Lemma to_double_exact (z : Z) :
  (Z.abs z <= 2 ^ 53)%Z -> to_double z = z.
Proof.
  intros H. unfold to_double.
  destruct (Z.leb_spec (Z.abs z) (2 ^ 53)); [reflexivity | lia].
Qed.

Lemma exact_sum_grows (results : list QueryResult) :
  Forall (fun res => (0 <= affectedRows res)%Z) results ->
  forall acc : Z,
    (acc <= fold_left (fun acc res => acc + affectedRows res) results acc)%Z.
Proof.
  induction 1 as [|res rest Hres _ IH]; intros acc; cbn [fold_left]; [lia|].
  specialize (IH (acc + affectedRows res)%Z). lia.
Qed.

(** Below 2^53 the additions of the [reduce] are exact. *)
Lemma rounded_sum_exact (results : list QueryResult) :
  Forall (fun res => (0 <= affectedRows res)%Z) results ->
  forall acc : Z,
    (0 <= acc)%Z ->
    (fold_left (fun acc res => acc + affectedRows res) results acc <= 2 ^ 53)%Z ->
    fold_left (fun acc res => js_add acc (affectedRows res)) results acc
    = fold_left (fun acc res => (acc + affectedRows res)%Z) results acc.
Proof.
  induction 1 as [|res rest Hres Hrest IH]; intros acc Hacc Hbound;
    [reflexivity|].
  cbn [fold_left] in *.
  pose proof (exact_sum_grows rest Hrest (acc + affectedRows res)%Z) as Hgrow.
  unfold js_add at 2. rewrite to_double_exact by lia.
  apply IH; [lia | exact Hbound].
Qed.

(** X10: when every call of the transaction resolves and the affected rows
    of the statements, none of them negative, add up to 2^53 at most, the
    update of a batch of rows (none, or two and more) reports [Success] with
    the sum of the affected rows, after having opened the transaction, issued
    one statement per row in the order of the rows, and committed. *)
Theorem batch_update_commits
    (updates : list MySqlUpdateRow.t) (h : list Call)
    (results : list QueryResult) :
  List.length updates <> 1 ->
  Pool.beginTransaction pool h = Ok tt ->
  Promise_all (fst (issue_all pool collectionName updates
                      (h ++ [CallBeginTransaction])%list)) = Ok results ->
  Pool.commit pool
    (h ++ [CallBeginTransaction] ++ map (row_call collectionName) updates)%list
  = Ok tt ->
  Forall (fun res => (0 <= affectedRows res)%Z) results ->
  (total_affected results <= 2 ^ 53)%Z ->
  update pool collectionName
    (Structured {| MySqlUpdateQueryParams.updates := updates |}) h
  = (Ok {| status := Success;
           modifiedCount := Some (total_affected results) |},
     (h ++ [CallBeginTransaction] ++ map (row_call collectionName) updates
        ++ [CallCommit])%list).
Proof.
  intros Hlen Hbegin Hall Hcommit Hrows Hbound.
  rewrite update_many_rows by exact Hlen.
  unfold updateMany, try_catch, io_bind, pool_beginTransaction, pool_commit,
    io_ret.
  rewrite Hbegin.
  destruct (issue_all_calls updates (h ++ [CallBeginTransaction])%list)
    as [Hcalls _].
  destruct (issue_all pool collectionName updates
              (h ++ [CallBeginTransaction])%list) as [settled h'].
  cbn [fst snd] in *. subst h'. rewrite Hall.
  rewrite <- app_assoc. rewrite Hcommit.
  unfold total_affected in *.
  rewrite (rounded_sum_exact results Hrows 0%Z) by (lia || exact Hbound).
  now rewrite <- !app_assoc.
Qed.

(** X11: whatever the pool answers, [updateMany] first opens the transaction;
    if that resolves it issues one statement per row, in the order of the
    rows, even when an earlier one is rejected; it then closes with a commit,
    a rollback, or a rejected commit followed by a rollback, and it reports
    [Success] exactly when it closed with the commit alone. *)
Theorem batch_update_protocol (updates : list MySqlUpdateRow.t) (h : list Call) :
  exists closing : list Call,
    snd (updateMany pool collectionName updates h)
    = (h ++ CallBeginTransaction
         :: match Pool.beginTransaction pool h with
            | Ok _ => map (row_call collectionName) updates
            | Throw _ => []
            end ++ closing)%list
    /\ (closing = [CallCommit] \/ closing = [CallRollback]
        \/ closing = [CallCommit; CallRollback])
    /\ ((exists n : Z,
            fst (updateMany pool collectionName updates h)
            = Ok {| status := Success; modifiedCount := Some n |})
        <-> closing = [CallCommit]).
Proof.
  unfold updateMany, try_catch, io_bind, pool_beginTransaction, pool_commit,
    pool_rollback, io_ret.
  destruct (Pool.beginTransaction pool h) as [[]|e0].
  - destruct (issue_all_calls updates (h ++ [CallBeginTransaction])%list)
      as [Hcalls _].
    destruct (issue_all pool collectionName updates
                (h ++ [CallBeginTransaction])%list) as [settled h'].
    cbn [fst snd] in *. subst h'.
    destruct (Promise_all settled) as [results|e1].
    + destruct (Pool.commit pool _) as [[]|e2].
      * exists [CallCommit]. cbn [fst snd].
        split; [now rewrite <- !app_assoc|].
        split; [now left|]. split; [reflexivity|]. intros _. eexists. reflexivity.
      * exists [CallCommit; CallRollback].
        destruct (Pool.rollback pool _); cbn [fst snd];
          (split; [now rewrite <- !app_assoc|]);
          (split; [now right; right|]);
          (split; [intros [n Hn]; discriminate Hn | discriminate]).
    + exists [CallRollback].
      destruct (Pool.rollback pool _); cbn [fst snd];
        (split; [now rewrite <- !app_assoc|]);
        (split; [now right; left|]);
        (split; [intros [n Hn]; discriminate Hn | discriminate]).
  - exists [CallRollback].
    destruct (Pool.rollback pool _); cbn [fst snd];
      (split; [now rewrite <- !app_assoc|]);
      (split; [now right; left|]);
      (split; [intros [n Hn]; discriminate Hn | discriminate]).
Qed.

(** X12: a structured update never raises of its own.  The update of a
    single row resolves whatever the pool does; an update of any number of
    rows resolves as long as the rollback resolves; and when a call of the
    transaction of a batch is rejected and the rollback is rejected too, the
    update is rejected with the error of the rollback, not wrapped in a
    [CollectionError]. *)
Theorem structured_update_outcomes
    (q : MySqlUpdateQueryParams.t) (h : list Call) :
  (forall row : MySqlUpdateRow.t,
      exists stats, fst (updateOne pool collectionName row h) = Ok stats)
  /\ ((forall h' : list Call, Pool.rollback pool h' = Ok tt) ->
      exists stats,
        fst (update pool collectionName (Structured q) h) = Ok stats)
  /\ (forall e : JsError,
         (forall h' : list Call, Pool.rollback pool h' = Throw e) ->
         List.length (MySqlUpdateQueryParams.updates q) <> 1 ->
         transaction_rejected pool collectionName
           (MySqlUpdateQueryParams.updates q) h ->
         fst (update pool collectionName (Structured q) h) = Throw e).
Proof.
  assert (Hone : forall row : MySqlUpdateRow.t,
             exists stats, fst (updateOne pool collectionName row h) = Ok stats).
  { intros row. unfold updateOne, try_catch, io_bind, pool_query, io_ret.
    destruct (Pool.query pool h _ _); eexists; reflexivity. }
  split; [exact Hone|]. split.
  - intros Hrollback. destruct q as [updates]. cbn [update].
    cbn [MySqlUpdateQueryParams.updates].
    assert (Hmany : forall rows,
               exists stats,
                 fst (updateMany pool collectionName rows h) = Ok stats).
    { intros rows.
      unfold updateMany, try_catch, io_bind, pool_beginTransaction,
        pool_commit, pool_rollback, io_ret.
      destruct (Pool.beginTransaction pool h) as [[]|e0];
        [|rewrite Hrollback; eexists; reflexivity].
      destruct (issue_all pool collectionName rows _) as [settled h'].
      destruct (Promise_all settled) as [results|e1];
        [|rewrite Hrollback; eexists; reflexivity].
      destruct (Pool.commit pool h') as [[]|e2];
        [|rewrite Hrollback]; eexists; reflexivity. }
    destruct updates as [|first [|second others]];
      [apply Hmany | apply Hone | apply Hmany].
  - intros e Hrollback Hlen Hrejected.
    destruct q as [updates]. cbn [MySqlUpdateQueryParams.updates] in *.
    rewrite update_many_rows by exact Hlen.
    unfold transaction_rejected in Hrejected.
    unfold updateMany, try_catch, io_bind, pool_beginTransaction,
      pool_commit, pool_rollback, io_ret.
    destruct (Pool.beginTransaction pool h) as [[]|e0];
      [|now rewrite Hrollback].
    destruct (issue_all pool collectionName updates
                (h ++ [CallBeginTransaction])%list) as [settled h'].
    cbn [fst snd] in Hrejected.
    destruct (Promise_all settled) as [results|e1] eqn:Hall;
      [|now rewrite Hrollback].
    destruct (Pool.commit pool h') as [[]|e2]; [|now rewrite Hrollback].
    exfalso.
    destruct Hrejected as [[e' H] | [[e' H] | [e' H]]];
      [discriminate H | | discriminate H].
    destruct (Promise_all_rejected _ settled (ex_intro _ e' H)) as [e'' He''].
    congruence.
Qed.

(** X13: when the pool resolves its query, [count] does not raise: it
    returns the [count] column of the first row when that is an integer, and
    [NaN] in every other case, whether there is no row, no such column, or a
    value that is not an integer number. *)
Theorem count_resolves_to_number
    (query : option (Query MySqlCountQueryParams.t)) (h : list Call)
    (res : QueryResult) :
  (forall sql vals, Pool.query pool h sql vals = Ok res) ->
  fst (count pool collectionName query h) = Ok (counted res)
  /\ (forall z : Z,
         counted res = Finite z
         <-> exists first rest,
               rows res = first :: rest
               /\ property first "count" = Some (JInt z))
  /\ (counted res = NaN \/ exists z : Z, counted res = Finite z).
Proof.
  intros Hquery. split; [|split].
  - unfold count, try_catch, io_bind, pool_query, io_ret.
    now rewrite Hquery.
  - intros z. unfold counted, JInt.
    destruct (rows res) as [|first rest].
    + split; [discriminate | intros (f & r & H & _); discriminate H].
    + destruct (property first "count") as [v|] eqn:Hp.
      * split.
        -- intros H. destruct v as [| | |[z'| | |]| |]; try discriminate H.
           inversion H; subst z'. now exists first, rest.
        -- intros (f & r & Hrows & Hprop). inversion Hrows; subst f r.
           rewrite Hp in Hprop. now inversion Hprop.
      * split; [discriminate|].
        intros (f & r & Hrows & Hprop). inversion Hrows; subst f r.
        rewrite Hp in Hprop. discriminate Hprop.
  - unfold counted.
    destruct (rows res) as [|first rest]; [now left|].
    destruct (property first "count") as [[| | |[z'| | |]| |]|];
      try (now left). right. now exists z'.
Qed.

(** X14: the query [createRemoveQuery] compiles from a [Where] without
    condition makes [remove] issue the same statement as no query at all:
    the delete of the whole table, with no where clause. *)
Theorem remove_without_condition_deletes_all (w : Where) (h : list Call) :
  result w = None ->
  exists q : MySqlDeleteQueryParams.t,
    createRemoveQuery {| RemoveParams.where_ := Some w |} = Ok q
    /\ remove pool collectionName (Some (Structured q)) h
       = remove pool collectionName None h
    /\ snd (remove pool collectionName None h)
       = (h ++ [CallQuery ("DELETE FROM " ++ collectionName) None])%list.
Proof.
  intros Hw. unfold createRemoveQuery.
  cbn [RemoveParams.where_]. rewrite Hw.
  eexists. split; [reflexivity|]. split; [reflexivity|].
  unfold remove, try_catch, io_bind, pool_query, io_ret, rethrow, io_throw.
  cbn [join String.concat].
  destruct (Pool.query pool h _ None); reflexivity.
Qed.

Lemma count_placeholders_join_ge (sep part : string) (parts : list string) :
  In part parts ->
  count_placeholders part <= count_placeholders (join sep parts).
Proof.
  unfold join. induction parts as [|p rest IH]; [contradiction|].
  intros [<- | Hin].
  - destruct rest; cbn [String.concat]; [lia|].
    rewrite count_placeholders_app. lia.
  - specialize (IH Hin). destruct rest as [|p2 rest]; [contradiction|].
    cbn [String.concat] in *. rewrite !count_placeholders_app. lia.
Qed.

(** X15: [find] binds no value.  For a condition within the data model with
    n leaves, the query [createFindQuery] compiles makes [find] issue one
    statement that holds at least n placeholders and is sent without any
    value. *)
Theorem find_binds_no_value
    (c : WhereCondition) (limit offset : option JsNumber) (sort : option Rec)
    (h : list Call) :
  well_formed c = true ->
  exists (q : MySqlFindQueryParams.t) (sql : string),
    createFindQuery
      {| FindParams.limit := limit; FindParams.offset := offset;
         FindParams.sort := sort;
         FindParams.where_ := Some {| result := Some c |} |} = Ok q
    /\ snd (find pool collectionName (Some (Structured q)) h)
       = (h ++ [CallQuery sql None])%list
    /\ leaves c <= count_placeholders sql.
Proof.
  intros Hwf.
  destruct (parseNode_compiles (fun _ => EmptyString) c Hwf)
    as [fragment [Hparse [Hcount _]]].
  unfold createFindQuery. cbn [FindParams.where_ result].
  rewrite Hparse. cbn [rbind].
  eexists. eexists. split; [reflexivity|].
  cbn [MySqlFindQueryParams.where_ MySqlFindQueryParams.sort
         MySqlFindQueryParams.limit].
  split.
  - unfold find, try_catch, io_bind, pool_query, io_ret, rethrow, io_throw.
    destruct (Pool.query pool h _ None); reflexivity.
  - rewrite <- Hcount.
    transitivity (count_placeholders ("WHERE " ++ query fragment)).
    + rewrite count_placeholders_app. cbn. lia.
    + apply count_placeholders_join_ge. right. left. reflexivity.
Qed.

Lemma assignments_count (keys : list string) :
  Forall (fun key => count_placeholders key = 0) keys ->
  count_placeholders (join ", " (map (fun key => key ++ " = ?") keys))
  = List.length keys.
Proof.
  intros H. rewrite count_placeholders_join by reflexivity.
  induction H as [|key rest Hkey _ IH]; [reflexivity|].
  cbn [map list_sum fold_right List.length].
  unfold list_sum in IH. rewrite IH, count_placeholders_app, Hkey.
  reflexivity.
Qed.

Lemma update_sql_count (row : MySqlUpdateRow.t) :
  count_placeholders (update_sql collectionName row)
  = count_placeholders collectionName
    + count_placeholders (join ", " (MySqlUpdateRow.keys row))
    + count_placeholders (MySqlUpdateRow.where_ row).
Proof.
  unfold update_sql. rewrite !count_placeholders_app. cbn. lia.
Qed.

(** X16: the update of one row binds too few values.  For a payload and a
    table whose names hold no placeholder character and a condition within
    the data model with n leaves, the statement [update] issues for the
    compiled row has one placeholder per field of the payload and n more for
    the condition, and is sent with the values of the payload alone. *)
Theorem single_update_binds_payload_only
    (payload : Rec) (c : WhereCondition) (h : list Call) :
  well_formed c = true ->
  Forall (fun key => count_placeholders key = 0) (Object_keys payload) ->
  count_placeholders collectionName = 0 ->
  exists (q : MySqlUpdateQueryParams.t) (sql : string),
    fst (createUpdateQuery [payload] [{| result := Some c |}]) = Ok q
    /\ snd (update pool collectionName (Structured q) h)
       = (h ++ [CallQuery sql (Some (Object_values payload))])%list
    /\ count_placeholders sql = List.length payload + leaves c
    /\ List.length (Object_values payload) = List.length payload.
Proof.
  intros Hwf Hkeys Htable.
  destruct (parseNode_compiles (fun _ => EmptyString) c Hwf)
    as [fragment [Hparse [Hcount _]]].
  exists {| MySqlUpdateQueryParams.updates :=
              [update_row payload (query fragment)] |}.
  exists (update_sql collectionName (update_row payload (query fragment))).
  split; [|split; [|split]].
  - rewrite createUpdateQuery_rows.
    change (padded [payload] [{| result := Some c |}])
      with [Some {| result := Some c |}].
    cbn [rows_from hd tl compiled_text result]. now rewrite Hparse.
  - cbn [update MySqlUpdateQueryParams.updates].
    unfold updateOne, try_catch, io_bind, pool_query, io_ret.
    cbn [update_row MySqlUpdateRow.values].
    destruct (Pool.query pool h _ _); reflexivity.
  - rewrite update_sql_count, Htable.
    cbn [update_row MySqlUpdateRow.keys MySqlUpdateRow.where_].
    rewrite (assignments_count _ Hkeys), Hcount.
    unfold Object_keys. rewrite length_map. reflexivity.
  - unfold Object_values. apply length_map.
Qed.

End CollectionBehaviour.

Section CollectionWitnesses.

Import MySqlWhereParser MySqlQueryFactory MySqlCollection.

Lemma batch_update_commits_witness :
  update live_pool "users"
    (Structured {| MySqlUpdateQueryParams.updates :=
                     [rename_ann_row; rename_ann_row] |}) []
  = (Ok {| status := Success; modifiedCount := Some 2%Z |},
     [CallBeginTransaction;
      row_call "users" rename_ann_row; row_call "users" rename_ann_row;
      CallCommit])
  /\ update live_pool "users"
       (Structured {| MySqlUpdateQueryParams.updates := [] |}) []
     = (Ok {| status := Success; modifiedCount := Some 0%Z |},
        [CallBeginTransaction; CallCommit]).
Proof.
  split.
  - apply (batch_update_commits live_pool "users"
             [rename_ann_row; rename_ann_row] []
             [ {| rows := []; insertId := 41; affectedRows := 1 |};
               {| rows := []; insertId := 41; affectedRows := 1 |} ]);
      [ cbn; lia | reflexivity | reflexivity | reflexivity
      | repeat constructor; cbn; lia | cbn; lia ].
  - apply (batch_update_commits live_pool "users" [] [] []);
      [ cbn; lia | reflexivity | reflexivity | reflexivity
      | constructor | cbn; lia ].
Defined.

Lemma batch_update_protocol_witness :
  exists closing : list Call,
    snd (updateMany flaky_pool "users" [rename_ann_row; rename_ann_row] [])
    = ([] ++ CallBeginTransaction
          :: map (row_call "users") [rename_ann_row; rename_ann_row]
          ++ closing)%list
    /\ (closing = [CallCommit] \/ closing = [CallRollback]
        \/ closing = [CallCommit; CallRollback])
    /\ ((exists n : Z,
            fst (updateMany flaky_pool "users"
                   [rename_ann_row; rename_ann_row] [])
            = Ok {| status := Success; modifiedCount := Some n |})
        <-> closing = [CallCommit]).
Proof.
  exact (batch_update_protocol flaky_pool "users"
           [rename_ann_row; rename_ann_row] []).
Defined.

Lemma structured_update_outcomes_witness :
  (exists stats,
      fst (update flaky_pool "users"
             (Structured {| MySqlUpdateQueryParams.updates :=
                              [rename_ann_row; rename_ann_row] |}) [])
      = Ok stats)
  /\ fst (update lost_pool "users"
            (Structured {| MySqlUpdateQueryParams.updates :=
                             [rename_ann_row; rename_ann_row] |}) [])
     = Throw (DriverFailure "EPIPE").
Proof.
  split.
  - apply (proj1 (proj2 (structured_update_outcomes flaky_pool "users"
                           {| MySqlUpdateQueryParams.updates :=
                                [rename_ann_row; rename_ann_row] |} []))).
    reflexivity.
  - apply (proj2 (proj2 (structured_update_outcomes lost_pool "users"
                           {| MySqlUpdateQueryParams.updates :=
                                [rename_ann_row; rename_ann_row] |} []))).
    + reflexivity.
    + cbn. lia.
    + left. exists (DriverFailure "ECONNRESET"). reflexivity.
Defined.

Lemma count_resolves_to_number_witness :
  fst (count counting_pool "users" None []) = Ok (Finite 4)
  /\ fst (count live_pool "users" None []) = Ok NaN.
Proof.
  split.
  - apply (proj1 (count_resolves_to_number counting_pool "users" None []
                    {| rows := [[("count", JInt 4)]];
                       insertId := 0; affectedRows := 0 |}
                    (fun _ _ => eq_refl))).
  - apply (proj1 (count_resolves_to_number live_pool "users" None []
                    {| rows := []; insertId := 41; affectedRows := 1 |}
                    (fun _ _ => eq_refl))).
Defined.

Lemma remove_without_condition_deletes_all_witness :
  exists q : MySqlDeleteQueryParams.t,
    createRemoveQuery {| RemoveParams.where_ := Some {| result := None |} |}
    = Ok q
    /\ remove live_pool "users" (Some (Structured q)) []
       = remove live_pool "users" None []
    /\ snd (remove live_pool "users" None [])
       = ([] ++ [CallQuery ("DELETE FROM " ++ "users") None])%list.
Proof.
  exact (remove_without_condition_deletes_all live_pool "users"
           {| result := None |} [] eq_refl).
Defined.

Lemma find_binds_no_value_witness :
  exists (q : MySqlFindQueryParams.t) (sql : string),
    createFindQuery
      {| FindParams.limit := Some (Finite 10); FindParams.offset := None;
         FindParams.sort := None;
         FindParams.where_ := Some {| result := Some adults_or_active |} |}
    = Ok q
    /\ snd (find live_pool "users" (Some (Structured q)) [])
       = ([] ++ [CallQuery sql None])%list
    /\ leaves adults_or_active <= count_placeholders sql.
Proof.
  exact (find_binds_no_value live_pool "users" adults_or_active
           (Some (Finite 10)) None None [] eq_refl).
Defined.

Lemma single_update_binds_payload_only_witness :
  exists (q : MySqlUpdateQueryParams.t) (sql : string),
    fst (createUpdateQuery [rename_ann] [{| result := Some adults_or_active |}])
    = Ok q
    /\ snd (update live_pool "users" (Structured q) [])
       = ([] ++ [CallQuery sql (Some (Object_values rename_ann))])%list
    /\ count_placeholders sql
       = List.length rename_ann + leaves adults_or_active
    /\ List.length (Object_values rename_ann) = List.length rename_ann.
Proof.
  apply (single_update_binds_payload_only live_pool "users" rename_ann
           adults_or_active []).
  - reflexivity.
  - repeat constructor.
  - reflexivity.
Defined.

End CollectionWitnesses.

Section FactoryWitnesses.

Import MySqlWhereParser MySqlQueryFactory.

Lemma createFindQuery_fails_only_on_condition_witness :
  createFindQuery
    {| FindParams.limit := None; FindParams.offset := None;
       FindParams.sort := Some [("name", JInt 1)];
       FindParams.where_ :=
         Some {| result := Some (Condition "age" "between" (JInt 1)) |} |}
  = Throw (UnsupportedOperator "between").
Proof.
  apply (proj2 (createFindQuery_fails_only_on_condition _ _)).
  eexists. split; reflexivity.
Defined.

Lemma aggregation_star_without_selectors_witness :
  MySqlAggregateParams.pipeline
    (createAggregationQuery
       {| AggregationParams.sum := Some EmptyString;
          AggregationParams.average := None;
          AggregationParams.min := None;
          AggregationParams.max := None;
          AggregationParams.count := None;
          AggregationParams.where_ := None;
          AggregationParams.sort := None;
          AggregationParams.groupBy := Some ["city"] |})
  = "*".
Proof.
  apply (proj2 (aggregation_star_without_selectors _)).
  repeat split.
Defined.

Lemma where_fragments_agree_witness :
  createCountQuery {| CountParams.where_ := Some {| result := None |} |}
  = Ok {| MySqlCountQueryParams.where_ := Some "WHERE 1=1" |}
  /\ text_of (parse (result {| result := None |})) = Ok "1=1".
Proof.
  split; [reflexivity|].
  apply (proj2 (proj2 (proj2
           (where_fragments_agree {| result := None |} None None None)))).
  reflexivity.
Defined.

End FactoryWitnesses.

(** ** The configuration: the prefix of the variables *)

Section ConfigPrefix.

Lemma upper_ascii_idempotent (c : ascii) :
  upper_ascii (upper_ascii c) = upper_ascii c.
Proof. destruct c as [[] [] [] [] [] [] [] []]; reflexivity. Qed.

Lemma upper_ascii_underscore (c : ascii) :
  Ascii.eqb (upper_ascii c) "_" = Ascii.eqb c "_".
Proof. destruct c as [[] [] [] [] [] [] [] []]; reflexivity. Qed.

Lemma toUpperCase_idempotent (s : string) :
  toUpperCase (toUpperCase s) = toUpperCase s.
Proof.
  induction s as [|c s IH]; [reflexivity|].
  cbn [toUpperCase]. now rewrite upper_ascii_idempotent, IH.
Qed.

Lemma toUpperCase_app (a b : string) :
  toUpperCase (a ++ b) = toUpperCase a ++ toUpperCase b.
Proof.
  induction a as [|c a IH]; [reflexivity|].
  cbn [append toUpperCase]. now rewrite IH.
Qed.

Lemma toUpperCase_is_empty (s : string) :
  String.eqb (toUpperCase s) EmptyString = String.eqb s EmptyString.
Proof. destruct s; reflexivity. Qed.

Lemma toUpperCase_is_underscore (s : string) :
  String.eqb (toUpperCase s) "_" = String.eqb s "_".
Proof.
  destruct s as [|c s]; [reflexivity|].
  cbn [toUpperCase String.eqb]. rewrite upper_ascii_underscore.
  now rewrite toUpperCase_is_empty.
Qed.

Lemma endsWith_toUpperCase (s : string) :
  endsWith (toUpperCase s) "_" = endsWith s "_".
Proof.
  induction s as [|c s IH]; [reflexivity|].
  change (toUpperCase (String c s))
    with (String (upper_ascii c) (toUpperCase s)).
  cbn [endsWith].
  change (String (upper_ascii c) (toUpperCase s))
    with (toUpperCase (String c s)).
  now rewrite toUpperCase_is_underscore, IH.
Qed.

Lemma endsWith_app_underscore (s : string) : endsWith (s ++ "_") "_" = true.
Proof.
  induction s as [|c s IH]; [reflexivity|].
  cbn [append endsWith]. rewrite IH. apply orb_true_r.
Qed.

Lemma app_underscore_not_empty (s : string) :
  String.eqb (s ++ "_") EmptyString = false.
Proof. destruct s; reflexivity. Qed.

Lemma variable_prefix_idempotent (prefix : string) :
  MySqlConfig.variable_prefix (MySqlConfig.variable_prefix prefix)
  = MySqlConfig.variable_prefix prefix.
Proof.
  unfold MySqlConfig.variable_prefix at 2 3.
  destruct (String.eqb prefix EmptyString) eqn:Hempty; [reflexivity|].
  destruct (endsWith prefix "_") eqn:Hends; unfold MySqlConfig.variable_prefix.
  - rewrite toUpperCase_is_empty, Hempty, endsWith_toUpperCase, Hends.
    apply toUpperCase_idempotent.
  - rewrite app_underscore_not_empty, endsWith_app_underscore.
    now rewrite toUpperCase_app, toUpperCase_idempotent.
Qed.

Lemma variable_prefix_toUpperCase (prefix : string) :
  MySqlConfig.variable_prefix (toUpperCase prefix)
  = MySqlConfig.variable_prefix prefix.
Proof.
  unfold MySqlConfig.variable_prefix.
  rewrite toUpperCase_is_empty, endsWith_toUpperCase.
  now rewrite toUpperCase_idempotent.
Qed.

Lemma variable_prefix_app_underscore (prefix : string) :
  String.eqb prefix EmptyString = false ->
  endsWith prefix "_" = false ->
  MySqlConfig.variable_prefix (prefix ++ "_")
  = MySqlConfig.variable_prefix prefix.
Proof.
  intros Hempty Hends. unfold MySqlConfig.variable_prefix.
  rewrite app_underscore_not_empty, endsWith_app_underscore, Hempty, Hends.
  apply toUpperCase_app.
Qed.

(** X17: [MySqlConfig.create] reads the same variables for a prefix, for its
    upper-cased form and for the prefix it computes from it; for a prefix
    that is not empty and does not end with an underscore, also for that
    prefix followed by an underscore; and the computed prefix of a prefix
    that is not empty ends with an underscore. *)
Theorem config_prefix_is_normalized
    (configVars : ConfigVars.t) (prefix : string) :
  MySqlConfig.create configVars (toUpperCase prefix)
  = MySqlConfig.create configVars prefix
  /\ MySqlConfig.create configVars (MySqlConfig.variable_prefix prefix)
     = MySqlConfig.create configVars prefix
  /\ (String.eqb prefix EmptyString = false ->
      endsWith (MySqlConfig.variable_prefix prefix) "_" = true
      /\ (endsWith prefix "_" = false ->
          MySqlConfig.create configVars (prefix ++ "_")
          = MySqlConfig.create configVars prefix)).
Proof.
  unfold MySqlConfig.create.
  rewrite variable_prefix_toUpperCase, variable_prefix_idempotent.
  split; [reflexivity|]. split; [reflexivity|].
  intros Hempty. split.
  - unfold MySqlConfig.variable_prefix. rewrite Hempty.
    destruct (endsWith prefix "_") eqn:Hends.
    + now rewrite endsWith_toUpperCase.
    + apply endsWith_app_underscore.
  - intros Hends.
    now rewrite (variable_prefix_app_underscore prefix Hempty Hends).
Qed.

Lemma config_prefix_is_normalized_witness :
  MySqlConfig.database (MySqlConfig.create app_environment "app")
  = Some "shop"
  /\ MySqlConfig.create app_environment "app_"
     = MySqlConfig.create app_environment "app".
Proof.
  split; [reflexivity|].
  apply (proj2 (proj2 (proj2
           (config_prefix_is_normalized app_environment "app")) eq_refl)).
  reflexivity.
Defined.

End ConfigPrefix.
